(** * opencode-claude-max-proxy: the message handler of [src/proxy/server.ts]

    A shallow embedding of [handleMessages] and of the helpers it is built
    from: the prompt compiler, the two engine-consuming paths (buffered
    JSON and SSE streaming), the timers, and the two error classifiers.
    The engine ([query] of the agent SDK) is a black box; what it yields,
    when it fails, when the client goes away and when the runtime calls a
    timer callback are inputs of the model, each with the clock reading
    at which it happens.  Logging is left out.

    The first part is the model, the second the vocabulary of the
    properties, the third the lemmas and the properties themselves. *)

From Stdlib Require Import ZArith Lia Ascii String.
From stdpp Require Import base tactics option list numbers strings gmap pretty.

Local Open Scope string_scope.
Local Open Scope Z_scope.

(** ** JavaScript primitives used by the handler *)

Module Js.

(** [s.includes(sub)]: [sub] occurs in [s] at some offset. *)
Fixpoint includes (s sub : string) : bool :=
  if String.prefix sub s then true
  else match s with
       | EmptyString => false
       | String _ s' => includes s' sub
       end.

(** Truthiness of a [string | undefined] value: [undefined] and the
    empty string are falsy. *)
Definition truthy (v : option string) : bool :=
  match v with
  | Some s => negb (String.eqb s "")
  | None => false
  end.

(** [a || b] where [b] is a string. *)
Definition or_else (a : option string) (b : string) : string :=
  match a with
  | Some s => if String.eqb s "" then b else s
  | None => b
  end.

(** [a || b] where [b] may be [undefined] as well. *)
Definition or_opt (a b : option string) : option string :=
  if truthy a then a else b.

(** The loop of [Array.prototype.join]: [R] is the result built so far
    and [k] the index of the next element; the separator is added in
    front of every element but the first. *)
Fixpoint join_from (sep R : string) (k : nat) (l : list string) : string :=
  match l with
  | [] => R
  | x :: l' =>
      let R' := match k with O => R | S _ => R ++ sep end in
      join_from sep (R' ++ x) (S k) l'
  end.

Definition join (sep : string) (l : list string) : string :=
  join_from sep "" 0 l.

(** Values that are neither a string nor an array, as [String(v)]
    sees them.  [Number printed] is a number, given by the text that
    [String] prints for it ("42", "-7", "0.5", "1e+21").  [Object] is an
    object with the [toString] every object inherits. *)
Inductive other : Type :=
| Undefined
| Null
| Bool (b : bool)
| Number (printed : string)
| Object.

Definition String_ (v : other) : string :=
  match v with
  | Undefined => "undefined"
  | Null => "null"
  | Bool true => "true"
  | Bool false => "false"
  | Number printed => printed
  | Object => "[object Object]"
  end.

(** A thrown value.  [Error name message] is an instance of [Error];
    [NotError s] is any other value, [s] being what [String(value)]
    gives for it. *)
Inductive thrown : Type :=
| Error (name message : string)
| NotError (s : string).

(** [error instanceof Error ? error.message : String(error)] *)
Definition errorMessage (e : thrown) : string :=
  match e with
  | Error _ m => m
  | NotError s => s
  end.

End Js.

(** ** Prompt compiler (server.ts, lines 101-117) *)

(** A content block of a request message or of an assistant turn:
    [block.type] and the optional [block.text]. *)
Record Block : Type := mkBlock {
  block_type : string;
  block_text : option string
}.

Inductive Content : Type :=
| CString (s : string)
| CBlocks (blocks : list Block)
| COther (v : Js.other).

Record Message : Type := mkMessage {
  role : string;
  content : Content
}.

(** [block.type === "text" && block.text] *)
Definition is_text_with_text (b : Block) : bool :=
  String.eqb (block_type b) "text" && Js.truthy (block_text b).

(** [block.text] of a block that passed the filter; an absent text
    would be joined as the empty string. *)
Definition text_of (b : Block) : string :=
  match block_text b with
  | Some s => s
  | None => ""
  end.

Definition message_content (c : Content) : string :=
  match c with
  | CString s => s
  | CBlocks blocks => Js.join "" (map text_of (filter (fun b => Is_true (is_text_with_text b)) blocks))
  | COther v => Js.String_ v
  end.

Definition role_label (r : string) : string :=
  if String.eqb r "assistant" then "Assistant" else "Human".

(** [`${role}: ${content}`] *)
Definition message_line (m : Message) : string :=
  role_label (role m) ++ ": " ++ message_content (content m).

Definition blank_line : string := String "010"%char (String "010"%char EmptyString).

(** [body.messages?.map(...).join("\n\n") || ""]; [None] is an absent
    [messages] field. *)
Definition compilePrompt (messages : option (list Message)) : string :=
  Js.or_else (option_map (fun ms => Js.join blank_line (map message_line ms)) messages) "".

(** ** Engine events and SSE frames *)

(** [event.delta] of a nested [content_block_delta]; it is forwarded as it
    is. *)
Record Delta : Type := mkDelta {
  delta_type : option string;
  delta_text : option string
}.

(** The nested event of a [stream_event] message.  [block_type] of a
    [content_block_start] is [event.content_block?.type]: [None] when the
    block or its type is absent. *)
Inductive RawEvent : Type :=
| EvContentBlockStart (index : Z) (block_type : option string)
| EvContentBlockDelta (index : Z) (delta : option Delta)
| EvContentBlockStop (index : Z)
| EvOther (type : string).

(** What the handler reads of an engine message: its [type], and under
    [assistant] the [session_id] and [message.content], under [user]
    whether [tool_use_result] is set, under [stream_event] the [event]. *)
Inductive SDKMessage : Type :=
| Assistant (session_id : option string) (content : list Block)
| User (tool_use_result : bool)
| Result
| StreamEvent (event : RawEvent)
| OtherMessage (type : string).

(** One chunk written to the response stream: the SSE event with the
    fields of its JSON payload that vary, or the keep-alive comment. *)
Inductive Frame : Type :=
| MessageStart (id : string) (model : option string)
| ContentBlockStart (index : Z)
| ContentBlockDelta (index : Z) (delta : Delta)
| ContentBlockStop (index : Z)
| MessageDelta (stop_reason : string)
| MessageStop
| ErrorFrame (type message : string)
| Ping.

(** The [event:] line of a frame; the ping is a comment without one. *)
Definition event_name (f : Frame) : option string :=
  match f with
  | MessageStart _ _ => Some "message_start"
  | ContentBlockStart _ => Some "content_block_start"
  | ContentBlockDelta _ _ => Some "content_block_delta"
  | ContentBlockStop _ => Some "content_block_stop"
  | MessageDelta _ => Some "message_delta"
  | MessageStop => Some "message_stop"
  | ErrorFrame _ _ => Some "error"
  | Ping => None
  end.

(** ** Error classification *)

Definition auth_message : string :=
  "Claude Code authentication failed. Please run 'claude login' and try again.".

Definition abort_message : string :=
  "Claude SDK process exited unexpectedly. This may be due to resource constraints, network issues, or an internal SDK error. Check the proxy logs for details.".

Definition isSdkAbort (error : Js.thrown) : bool :=
  Js.includes (Js.errorMessage error) "Claude Code process aborted"
  || Js.includes (Js.errorMessage error) "process aborted by user".

Definition isConnectionReset (error : Js.thrown) : bool :=
  negb (isSdkAbort error) &&
  match error with
  | Js.Error name message =>
      Js.includes message "reset" || Js.includes message "ECONNRESET"
      || String.eqb name "AbortError"
  | Js.NotError _ => false
  end.

Definition isExitCode1 (error : Js.thrown) : bool :=
  Js.includes (Js.errorMessage error) "exited with code 1"
  || Js.includes (Js.errorMessage error) "exit code 1".

(** The [errorType] and [userMessage] of the streaming catch block
    (lines 553-565). *)
Definition classifyStreamError (error : Js.thrown) : string * string :=
  let errorType := "api_error" in
  let userMessage := Js.errorMessage error in
  if isExitCode1 error then ("authentication_error", auth_message)
  else if isSdkAbort error then ("api_error", abort_message)
  else if isConnectionReset error then ("connection_error", userMessage)
  else (errorType, userMessage).

(** ** Responses *)

(** A body: the JSON message with its [id], text and [model], the JSON
    error with its [type] and [message] (fields that are the same in
    every response are left out), or the event stream. *)
Inductive ResponseBody : Type :=
| MessageJson (id text : string) (model : option string)
| ErrorJson (type message : string)
| EventStream.

(** [headers] holds the headers the handler passes itself. *)
Record Response : Type := mkResponse {
  status : Z;
  headers : gmap string string;
  body : ResponseBody
}.

(** The catch block around the whole handler (lines 596-620). *)
Definition outerCatch (error : Js.thrown) : Response :=
  {| status := if isExitCode1 error then 401 else 500;
     headers := ∅;
     body := ErrorJson (if isExitCode1 error then "authentication_error" else "api_error")
                       (if isExitCode1 error then auth_message else Js.errorMessage error) |}.

(** ** What the environment does to a request in flight *)

Inductive TimerId : Type := TotalTimer | InactivityTimer | HeartbeatTimer.

(** The engine's iterator yields, completes or rejects; the consumer of
    the response stream cancels it; the runtime calls back a timer.  Each
    input comes with the clock reading ([Date.now()]) at which it
    happens. *)
Inductive Input : Type :=
| EngineYield (m : SDKMessage)
| EngineDone
| EngineThrow (e : Js.thrown)
| ClientCancel
| TimerDue (k : TimerId).

Record Timeouts : Type := mkTimeouts {
  streamTimeout : Z;
  inactivityTimeout : Z
}.

(** The defaults of [CLAUDE_PROXY_TIMEOUT_MS] and
    [CLAUDE_PROXY_INACTIVITY_MS]. *)
Definition default_timeouts : Timeouts :=
  {| streamTimeout := 3600000; inactivityTimeout := 900000 |}.

(** A callback registered with [setTimeout] or [setInterval] is pending
    with the time from which the runtime may call it. *)
Definition due (pending : option Z) (now : Z) : bool :=
  match pending with
  | Some d => d <=? now
  | None => false
  end.

(** The delay [setTimeout] waits for.  The runtime takes a delay that is
    a signed 32-bit integer of at least 1: a number of milliseconds above
    2147483647 (some 24.8 days) is replaced by 1, and so is one below 1,
    by the rule of Node.js that the runtime follows. *)
Definition timer_delay (ms : Z) : Z :=
  if (1 <=? ms) && (ms <=? 2147483647) then ms else 1.

(** ** The streaming path (lines 194-595) *)

Module Stream.

(** The variables shared by [start], [cancel] and the timer callbacks,
    and the state of the stream's controller and of the abort signal.
    [frames] are the chunks enqueued so far; [closed] says that the
    controller takes no more of them; a timer field is [Some d] while
    its callback is pending; [suspended] says that [start] waits in its
    [for await] for the engine. *)
Record state : Type := mk {
  frames : list Frame;
  closed : bool;
  aborted : option string;
  timeoutId : option Z;
  inactivityTimeoutId : option Z;
  heartbeat : option Z;
  clientDisconnected : bool;
  currentSessionId : option string;
  turnCount : nat;
  hasResult : bool;
  hasStreamEvents : bool;
  suspended : bool
}.

Definition initial : state :=
  mk [] false None None None None false None 0 false false false.

Definition set_frames v (s : state) :=
  mk v (closed s) (aborted s) (timeoutId s) (inactivityTimeoutId s) (heartbeat s)
     (clientDisconnected s) (currentSessionId s) (turnCount s) (hasResult s)
     (hasStreamEvents s) (suspended s).
Definition set_closed v (s : state) :=
  mk (frames s) v (aborted s) (timeoutId s) (inactivityTimeoutId s) (heartbeat s)
     (clientDisconnected s) (currentSessionId s) (turnCount s) (hasResult s)
     (hasStreamEvents s) (suspended s).
Definition set_aborted v (s : state) :=
  mk (frames s) (closed s) v (timeoutId s) (inactivityTimeoutId s) (heartbeat s)
     (clientDisconnected s) (currentSessionId s) (turnCount s) (hasResult s)
     (hasStreamEvents s) (suspended s).
Definition set_timeoutId v (s : state) :=
  mk (frames s) (closed s) (aborted s) v (inactivityTimeoutId s) (heartbeat s)
     (clientDisconnected s) (currentSessionId s) (turnCount s) (hasResult s)
     (hasStreamEvents s) (suspended s).
Definition set_inactivityTimeoutId v (s : state) :=
  mk (frames s) (closed s) (aborted s) (timeoutId s) v (heartbeat s)
     (clientDisconnected s) (currentSessionId s) (turnCount s) (hasResult s)
     (hasStreamEvents s) (suspended s).
Definition set_heartbeat v (s : state) :=
  mk (frames s) (closed s) (aborted s) (timeoutId s) (inactivityTimeoutId s) v
     (clientDisconnected s) (currentSessionId s) (turnCount s) (hasResult s)
     (hasStreamEvents s) (suspended s).
Definition set_clientDisconnected v (s : state) :=
  mk (frames s) (closed s) (aborted s) (timeoutId s) (inactivityTimeoutId s) (heartbeat s)
     v (currentSessionId s) (turnCount s) (hasResult s)
     (hasStreamEvents s) (suspended s).
Definition set_currentSessionId v (s : state) :=
  mk (frames s) (closed s) (aborted s) (timeoutId s) (inactivityTimeoutId s) (heartbeat s)
     (clientDisconnected s) v (turnCount s) (hasResult s)
     (hasStreamEvents s) (suspended s).
Definition set_turnCount v (s : state) :=
  mk (frames s) (closed s) (aborted s) (timeoutId s) (inactivityTimeoutId s) (heartbeat s)
     (clientDisconnected s) (currentSessionId s) v (hasResult s)
     (hasStreamEvents s) (suspended s).
Definition set_hasResult v (s : state) :=
  mk (frames s) (closed s) (aborted s) (timeoutId s) (inactivityTimeoutId s) (heartbeat s)
     (clientDisconnected s) (currentSessionId s) (turnCount s) v
     (hasStreamEvents s) (suspended s).
Definition set_hasStreamEvents v (s : state) :=
  mk (frames s) (closed s) (aborted s) (timeoutId s) (inactivityTimeoutId s) (heartbeat s)
     (clientDisconnected s) (currentSessionId s) (turnCount s) (hasResult s)
     v (suspended s).
Definition set_suspended v (s : state) :=
  mk (frames s) (closed s) (aborted s) (timeoutId s) (inactivityTimeoutId s) (heartbeat s)
     (clientDisconnected s) (currentSessionId s) (turnCount s) (hasResult s)
     (hasStreamEvents s) v.

(** *** Statements that may throw *)

Inductive completion (A : Type) : Type :=
| Normal (a : A)
| Throw (e : Js.thrown).
Arguments Normal {A} a.
Arguments Throw {A} e.

Definition eff (A : Type) : Type := state -> completion A * state.

Definition ret {A} (a : A) : eff A := fun s => (Normal a, s).
Definition throw {A} (e : Js.thrown) : eff A := fun s => (Throw e, s).
Definition bind {A B} (c : eff A) (k : A -> eff B) : eff B :=
  fun s => match c s with
           | (Normal a, s') => k a s'
           | (Throw e, s') => (Throw e, s')
           end.
Definition get {A} (f : state -> A) : eff A := fun s => (Normal (f s), s).
Definition modify (f : state -> state) : eff unit := fun s => (Normal tt, f s).
Definition try_catch {A} (c : eff A) (handler : Js.thrown -> eff A) : eff A :=
  fun s => match c s with
           | (Normal a, s') => (Normal a, s')
           | (Throw e, s') => handler e s'
           end.
Declare Scope eff_scope.
Notation "x ← c ; k" := (bind c (fun x => k))
  (at level 20, c at level 100, k at level 200, only parsing) : eff_scope.
Notation "c ;; k" := (bind c (fun _ => k))
  (at level 100, k at level 200, only parsing, right associativity) : eff_scope.
Local Open Scope eff_scope.

Definition when (b : bool) (c : eff unit) : eff unit :=
  if b then c else ret tt.

(** *** The controller and the abort signal *)

(** The [TypeError] of [controller.enqueue] and [controller.close] on a
    controller that is closed or whose stream was cancelled; its text
    is the runtime's. *)
Definition controller_closed : Js.thrown :=
  Js.Error "TypeError" "Invalid state: Controller is already closed".

Definition enqueue (f : Frame) : eff unit :=
  fun s => if closed s then (Throw controller_closed, s)
           else (Normal tt, set_frames (frames s ++ [f]) s).

Definition close : eff unit :=
  fun s => if closed s then (Throw controller_closed, s)
           else (Normal tt, set_closed true s).

(** [abortController.abort(new Error(reason))]: the first reason stays. *)
Definition abort (reason : string) : eff unit :=
  modify (fun s => match aborted s with
                   | Some _ => s
                   | None => set_aborted (Some reason) s
                   end).

(** *** Timers *)

Section WithTimeouts.
Variable cfg : Timeouts.

Definition resetInactivityTimeout (now : Z) : eff unit :=
  modify (set_inactivityTimeoutId
            (Some (now + timer_delay (inactivityTimeout cfg)))).

(** [if (timeoutId) clearTimeout(timeoutId)] and the same for
    [inactivityTimeoutId]. *)
Definition clearTimeouts : eff unit :=
  modify (set_timeoutId None) ;; modify (set_inactivityTimeoutId None).

Definition clearHeartbeat : eff unit := modify (set_heartbeat None).

Definition heartbeat_period : Z := 15000.

(** *** The body of the [for await] loop (lines 282-408) *)

Inductive loop_ctl : Type := Continue | Break.

Definition forwards_block_start (block_type : option string) : bool :=
  match block_type with
  | Some t => String.eqb t "text" || negb (Js.truthy block_type)
  | None => true
  end.

Definition is_text_delta (delta : option Delta) : bool :=
  match delta with
  | Some d => match delta_type d with
              | Some t => String.eqb t "text_delta"
              | None => false
              end
  | None => false
  end.

Definition forward_stream_event (event : RawEvent) : eff unit :=
  match event with
  | EvContentBlockStart index block_type =>
      when (forwards_block_start block_type) (enqueue (ContentBlockStart index))
  | EvContentBlockDelta index delta =>
      match delta with
      | Some d => when (is_text_delta delta) (enqueue (ContentBlockDelta index d))
      | None => ret tt
      end
  | EvContentBlockStop index => enqueue (ContentBlockStop index)
  | EvOther _ => ret tt
  end.

Definition is_text (b : Block) : bool := String.eqb (block_type b) "text".

(** The [for (let i = 0; ...)] loop over [textBlocks], from index [i]. *)
Fixpoint fallback_from (i : nat) (textBlocks : list Block) : eff unit :=
  match textBlocks with
  | [] => ret tt
  | block :: rest =>
      when (is_text block)
        (enqueue (ContentBlockStart (Z.of_nat i)) ;;
         enqueue (ContentBlockDelta (Z.of_nat i) (mkDelta (Some "text_delta") (block_text block))) ;;
         enqueue (ContentBlockStop (Z.of_nat i))) ;;
      fallback_from (S i) rest
  end.

Definition fallback (content : list Block) : eff unit :=
  fallback_from 0 (filter (fun b => Is_true (is_text b)) content).

Definition process_message (now : Z) (message : SDKMessage) : eff loop_ctl :=
  disconnected ← get clientDisconnected;
  if disconnected then ret Break else
  resetInactivityTimeout now ;;
  match message with
  | Assistant session_id _ =>
      modify (fun s => set_turnCount (S (turnCount s)) s) ;;
      when (Js.truthy session_id)
        (current ← get currentSessionId;
         when (negb (Js.truthy current)) (modify (set_currentSessionId session_id)))
  | _ => ret tt
  end ;;
  match message with
  | Result => modify (set_hasResult true)
  | _ => ret tt
  end ;;
  match message with
  | StreamEvent event =>
      modify (set_hasStreamEvents true) ;;
      forward_stream_event event
  | Assistant _ content =>
      seen ← get hasStreamEvents;
      when (negb seen) (fallback content)
  | _ => ret tt
  end ;;
  ret Continue.

(** *** The end of [start] (lines 410-575) *)

(** After the loop: lines 422-441. *)
Definition closing : eff unit :=
  clearTimeouts ;;
  enqueue (ContentBlockStop 0) ;;
  enqueue (MessageDelta "end_turn") ;;
  enqueue MessageStop ;;
  close.

(** The catch block: lines 442-575. *)
Definition on_error (error : Js.thrown) : eff unit :=
  clearTimeouts ;;
  disconnected ← get clientDisconnected;
  if disconnected then close
  else
    let '(errorType, userMessage) := classifyStreamError error in
    enqueue (ErrorFrame errorType userMessage) ;;
    close.

(** [start] runs to its end; an exception that leaves it rejects its
    promise and changes nothing more. *)
Definition settle (c : eff unit) (s : state) : state :=
  set_suspended false (snd (c s)).

(** [start] is resumed at its [for await] with the outcome [r] of one
    more iteration: it waits again, or leaves the loop, through the
    [finally] that stops the heartbeat, to the closing frames or to the
    catch block. *)
Definition resume (r : eff loop_ctl) (s : state) : state :=
  match r s with
  | (Normal Continue, s') => s'
  | (Normal Break, s') => settle (try_catch (clearHeartbeat ;; closing) on_error) s'
  | (Throw e, s') => settle (clearHeartbeat ;; on_error e) s'
  end.

(** [start] up to its first [await] (lines 210-281). *)
Definition start (now : Z) (model : option string) : eff unit :=
  modify (set_timeoutId (Some (now + timer_delay (streamTimeout cfg)))) ;;
  try_catch
    (enqueue (MessageStart ("msg_" ++ pretty now) model) ;;
     enqueue (ContentBlockStart 0) ;;
     resetInactivityTimeout now ;;
     modify (set_heartbeat (Some (now + heartbeat_period))) ;;
     modify (set_suspended true))
    on_error.

(** *** Callbacks *)

(** [cancel()] (lines 577-585). *)
Definition cancel : eff unit :=
  modify (set_clientDisconnected true) ;;
  clearTimeouts.

Definition on_timeout (reason : string) : eff unit :=
  abort reason ;; close.

Definition on_heartbeat : eff unit :=
  disconnected ← get clientDisconnected;
  if disconnected then clearHeartbeat
  else try_catch (enqueue Ping) (fun _ => clearHeartbeat).

(** One input at clock reading [now].  Engine outcomes reach [start]
    only while it waits for them.  [ClientCancel] is a cancel of the
    stream that reaches [cancel()]: the stream is closed for the
    controller, if it was not, and [cancel()] is called.  That happens
    while the stream is readable, be it open or closed by
    [controller.close()] with chunks still unread, and once only: a
    stream that was cancelled takes no second cancel.  (A cancel of a
    stream whose chunks were all read after [close()] calls nothing and
    is no input.  Neither does the runtime call [cancel()] after [start]
    has failed on a closed controller; the model lets it, which sets
    [clientDisconnected] and nothing else, the timers being cleared by
    then.)  A timer callback runs when it is pending and due; after a
    timeout callback its timer is no longer pending, the interval is
    rescheduled. *)
Definition step (now : Z) (i : Input) (s : state) : state :=
  match i with
  | EngineYield m => if suspended s then resume (process_message now m) s else s
  | EngineDone => if suspended s then resume (ret Break) s else s
  | EngineThrow e => if suspended s then resume (throw e) s else s
  | ClientCancel =>
      if clientDisconnected s then s else snd (cancel (set_closed true s))
  | TimerDue TotalTimer =>
      if due (timeoutId s) now
      then snd (on_timeout "Stream timeout exceeded" (set_timeoutId None s))
      else s
  | TimerDue InactivityTimer =>
      if due (inactivityTimeoutId s) now
      then snd (on_timeout "Stream inactivity timeout" (set_inactivityTimeoutId None s))
      else s
  | TimerDue HeartbeatTimer =>
      if due (heartbeat s) now
      then snd (on_heartbeat (set_heartbeat (Some (now + heartbeat_period)) s))
      else s
  end.

Definition run (inputs : list (Z * Input)) (s : state) : state :=
  fold_left (fun s '(now, i) => step now i s) inputs s.

End WithTimeouts.

End Stream.

Definition session_header_name : string := "X-Claude-Session-ID".

(** ** The buffered path, [stream: false] (lines 119-192) *)

Module Buffered.

(** [response] is what the handler has returned, [None] while it waits
    for the engine.  [timeout] is the one timer of this path. *)
Record state : Type := mk {
  fullContent : string;
  currentSessionId : option string;
  timeout : option Z;
  aborted : option string;
  response : option Response
}.

Definition answered (s : state) : bool :=
  match response s with
  | Some _ => true
  | None => false
  end.

Section WithTimeouts.
Variable cfg : Timeouts.

(** Lines 120-127; [timeoutMs] is read from the same variable as
    [streamTimeout]. *)
Definition start (now : Z) : state :=
  {| fullContent := ""; currentSessionId := None;
     timeout := Some (now + timer_delay (streamTimeout cfg));
     aborted := None; response := None |}.

(** [fullContent += block.text] for the text blocks of one turn. *)
Fixpoint append_text (fullContent : string) (content : list Block) : string :=
  match content with
  | [] => fullContent
  | block :: rest =>
      append_text
        (if String.eqb (block_type block) "text"
         then fullContent ++ match block_text block with
                             | Some t => t
                             | None => "undefined"
                             end
         else fullContent)
        rest
  end.

(** The body of the [for await] loop (lines 146-161). *)
Definition consume (message : SDKMessage) (s : state) : state :=
  match message with
  | Assistant session_id content =>
      {| fullContent := append_text (fullContent s) content;
         currentSessionId := if Js.truthy session_id then session_id
                             else currentSessionId s;
         timeout := timeout s; aborted := aborted s; response := response s |}
  | _ => s
  end.

(** Lines 164-178. *)
Definition respond (model : option string) (now : Z) (s : state) : state :=
  {| fullContent := fullContent s; currentSessionId := currentSessionId s;
     timeout := None; aborted := aborted s;
     response := Some
       {| status := 200;
          headers := {[ session_header_name :=
                        Js.or_else (currentSessionId s) ("session_" ++ pretty now) ]};
          body := MessageJson ("msg_" ++ pretty now) (fullContent s) model |} |}.

(** Lines 179-191, and the outer catch block the error is rethrown to. *)
Definition fail (error : Js.thrown) (s : state) : state :=
  {| fullContent := fullContent s; currentSessionId := currentSessionId s;
     timeout := None; aborted := aborted s;
     response := Some (outerCatch error) |}.

(** The callback of lines 125-127. *)
Definition on_timeout (s : state) : state :=
  {| fullContent := fullContent s; currentSessionId := currentSessionId s;
     timeout := None;
     aborted := match aborted s with
                | Some r => Some r
                | None => Some "Request timeout"
                end;
     response := response s |}.

(** One input at clock reading [now]; [model] is [body.model].  Only
    [timeout] is registered with the runtime, so no other timer can be
    called back, and there is no stream for a client to cancel. *)
Definition step (model : option string) (now : Z) (i : Input) (s : state) : state :=
  match i with
  | EngineYield m => if answered s then s else consume m s
  | EngineDone => if answered s then s else respond model now s
  | EngineThrow e => if answered s then s else fail e s
  | ClientCancel => s
  | TimerDue TotalTimer => if due (timeout s) now then on_timeout s else s
  | TimerDue _ => s
  end.

Definition run (model : option string) (inputs : list (Z * Input)) (s : state) : state :=
  fold_left (fun s '(now, i) => step model now i s) inputs s.

End WithTimeouts.

End Buffered.

(** ** The handler (lines 72-621) *)

Definition mapModelToClaudeModel (model : string) : string :=
  if Js.includes model "opus" then "opus"
  else if Js.includes model "haiku" then "haiku"
  else "sonnet".

Record Body : Type := mkBody {
  body_model : option string;
  body_stream : option bool;
  body_messages : option (list Message)
}.

(** [c.req.json()] yields the body or rejects. *)
Inductive Parsed : Type :=
| Json (b : Body)
| Rejected (e : Js.thrown).

(** [session_header] is [c.req.header('X-Claude-Session-ID')]. *)
Record Request : Type := mkRequest {
  json : Parsed;
  session_header : option string
}.

(** The call of [query]: the prompt and the options that depend on the
    request. *)
Record Query : Type := mkQuery {
  prompt : string;
  model : string;
  includePartialMessages : bool;
  resume : option string
}.

(** A request in flight: answered by the outer catch block, waiting for
    the engine on the buffered path, or answered with a stream that
    [start] and the callbacks fill. *)
Inductive Handling : Type :=
| Failed (r : Response)
| Buffering (q : Query) (requested_model : option string) (s : Buffered.state)
| Streaming (q : Query) (r : Response) (s : Stream.state).

Section Handler.
Variable cfg : Timeouts.

(** [new ReadableStream] runs [start] up to its first [await], and
    [new Response] reads [currentSessionId] for the header right after
    it, in the same turn of the event loop. *)
Definition handleMessages (now : Z) (req : Request) : Handling :=
  match json req with
  | Rejected e => Failed (outerCatch e)
  | Json body =>
      let model := mapModelToClaudeModel (Js.or_else (body_model body) "sonnet") in
      let stream := default true (body_stream body) in
      let resumeSessionId := session_header req in
      let prompt := compilePrompt (body_messages body) in
      let resume := if Js.truthy resumeSessionId then resumeSessionId else None in
      if negb stream then
        Buffering (mkQuery prompt model false resume) (body_model body)
                  (Buffered.start cfg now)
      else
        let readable := snd (Stream.start cfg now (body_model body) Stream.initial) in
        Streaming (mkQuery prompt model true resume)
          {| status := 200;
             headers := {[ "Content-Type" := "text/event-stream";
                           "Cache-Control" := "no-cache";
                           "Connection" := "keep-alive";
                           session_header_name :=
                             Js.or_else (Js.or_opt (Stream.currentSessionId readable) resumeSessionId)
                                        ("session_" ++ pretty now) ]};
             body := EventStream |}
          readable
  end.

Definition deliver (now : Z) (i : Input) (h : Handling) : Handling :=
  match h with
  | Failed r => Failed r
  | Buffering q m s => Buffering q m (Buffered.step m now i s)
  | Streaming q r s => Streaming q r (Stream.step cfg now i s)
  end.

Definition serve (inputs : list (Z * Input)) (h : Handling) : Handling :=
  fold_left (fun h '(now, i) => deliver now i h) inputs h.

End Handler.

(** The response the client has got, if any, and the frames of its
    stream. *)
Definition response_of (h : Handling) : option Response :=
  match h with
  | Failed r => Some r
  | Buffering _ _ s => Buffered.response s
  | Streaming _ r _ => Some r
  end.

Definition frames_of (h : Handling) : list Frame :=
  match h with
  | Streaming _ _ s => Stream.frames s
  | _ => []
  end.

Definition session_id_header (h : Handling) : option string :=
  r ← response_of h; headers r !! session_header_name.

(** ** The prompt as the specification words it *)

Module PromptSpec.









End PromptSpec.

(** ** Delays of timers *)

(** A delay [setTimeout] takes as it is. *)
Definition in_timer_range (ms : Z) : Prop := 1 ≤ ms ≤ 2147483647.

(** ** Substring occurrence and the conditions of the classifier *)

(** [sub] occurs in [s]. *)
Definition occurs_in (sub s : string) : Prop :=
  ∃ before after : string, s = before ++ sub ++ after.

(** The conditions of the streaming classifier as properties of the
    thrown value. *)
Definition exit_code_1 (e : Js.thrown) : Prop :=
  occurs_in "exited with code 1" (Js.errorMessage e)
  ∨ occurs_in "exit code 1" (Js.errorMessage e).

Definition sdk_abort (e : Js.thrown) : Prop :=
  occurs_in "Claude Code process aborted" (Js.errorMessage e)
  ∨ occurs_in "process aborted by user" (Js.errorMessage e).

Definition connection_reset (e : Js.thrown) : Prop :=
  ∃ name message, e = Js.Error name message ∧
    (occurs_in "reset" message ∨ occurs_in "ECONNRESET" message
     ∨ name = "AbortError").

(** ** The states of a stream *)

Module StreamStates.
Import Stream.
Local Open Scope list_scope.

(** The frames of the fallback path for one text block at index [i]. *)
Definition triad (i : nat) (b : Block) : list Frame :=
  [ContentBlockStart (Z.of_nat i);
   ContentBlockDelta (Z.of_nat i) (mkDelta (Some "text_delta") (block_text b));
   ContentBlockStop (Z.of_nat i)].

Fixpoint triads_from (i : nat) (l : list Block) : list Frame :=
  match l with
  | [] => []
  | b :: rest => (if is_text b then triad i b else []) ++ triads_from (S i) rest
  end.

(** What one engine message makes the loop write while the stream is
    open, given whether a stream event was seen before it. *)
Definition forwarded (event : RawEvent) : list Frame :=
  match event with
  | EvContentBlockStart index block_type =>
      if forwards_block_start block_type then [ContentBlockStart index] else []
  | EvContentBlockDelta index (Some d) =>
      if is_text_delta (Some d) then [ContentBlockDelta index d] else []
  | EvContentBlockDelta index None => []
  | EvContentBlockStop index => [ContentBlockStop index]
  | EvOther _ => []
  end.

Definition emitted (seen : bool) (m : SDKMessage) : list Frame :=
  match m with
  | StreamEvent event => forwarded event
  | Assistant _ content =>
      if seen then [] else triads_from 0 (filter (fun b => Is_true (is_text b)) content)
  | _ => []
  end.

Section WithTimeouts.
Variable cfg : Timeouts.

(** The variables after one iteration of the loop. *)
Definition bookkeep (now : Z) (m : SDKMessage) (s : state) : state :=
  mk (frames s) (closed s) (aborted s) (timeoutId s)
     (Some (now + timer_delay (inactivityTimeout cfg))) (heartbeat s)
     (clientDisconnected s)
     (match m with
      | Assistant sid _ =>
          if Js.truthy sid && negb (Js.truthy (currentSessionId s))
          then sid else currentSessionId s
      | _ => currentSessionId s
      end)
     (match m with Assistant _ _ => S (turnCount s) | _ => turnCount s end)
     (match m with Result => true | _ => hasResult s end)
     (match m with StreamEvent _ => true | _ => hasStreamEvents s end)
     (suspended s).

Definition closing_frames : list Frame :=
  [ContentBlockStop 0; MessageDelta "end_turn"; MessageStop].

Definition error_frame (e : Js.thrown) : Frame :=
  ErrorFrame (classifyStreamError e).1 (classifyStreamError e).2.

(** [start] is over, with [fs] written. *)
Definition ended (fs : list Frame) (s : state) : state :=
  mk fs true (aborted s) None None None (clientDisconnected s)
     (currentSessionId s) (turnCount s) (hasResult s) (hasStreamEvents s) false.

Definition cancelled (s : state) : state :=
  mk (frames s) true (aborted s) None None (heartbeat s) true
     (currentSessionId s) (turnCount s) (hasResult s) (hasStreamEvents s)
     (suspended s).

Definition timer (k : TimerId) (s : state) : option Z :=
  match k with
  | TotalTimer => timeoutId s
  | InactivityTimer => inactivityTimeoutId s
  | HeartbeatTimer => heartbeat s
  end.

Definition timed_out (k : TimerId) (reason : string) (s : state) : state :=
  mk (frames s) true
     (match aborted s with Some r => Some r | None => Some reason end)
     (match k with TotalTimer => None | _ => timeoutId s end)
     (match k with InactivityTimer => None | _ => inactivityTimeoutId s end)
     (heartbeat s) (clientDisconnected s)
     (currentSessionId s) (turnCount s) (hasResult s) (hasStreamEvents s)
     (suspended s).

Definition pinged (now : Z) (s : state) : state :=
  mk (frames s ++ [Ping]) (closed s) (aborted s) (timeoutId s)
     (inactivityTimeoutId s) (Some (now + heartbeat_period))
     (clientDisconnected s)
     (currentSessionId s) (turnCount s) (hasResult s) (hasStreamEvents s)
     (suspended s).

(** [transition now i s s']: the ways input [i] at time [now] can take
    [s] to [s']. *)
Inductive transition : Z → Input → state → state → Prop :=
| tr_ignored now i s :
    transition now i s s
| tr_message now m s :
    suspended s = true → clientDisconnected s = false → closed s = false →
    transition now (EngineYield m) s
      (set_frames (frames s ++ emitted (hasStreamEvents s) m) (bookkeep now m s))
| tr_message_closed now m s :
    suspended s = true → clientDisconnected s = false → closed s = true →
    transition now (EngineYield m) s (bookkeep now m s)
| tr_closing now i s :
    suspended s = true → closed s = false →
    transition now i s (ended (frames s ++ closing_frames) s)
| tr_error now e s :
    suspended s = true → closed s = false → clientDisconnected s = false →
    transition now (EngineThrow e) s (ended (frames s ++ [error_frame e]) s)
| tr_silent now i s :
    suspended s = true → closed s = true ∨ clientDisconnected s = true →
    transition now i s (ended (frames s) s)
| tr_silent_message now m s :
    suspended s = true → clientDisconnected s = false → closed s = true →
    transition now (EngineYield m) s (ended (frames s) (bookkeep now m s))
| tr_cancel now s :
    clientDisconnected s = false →
    transition now ClientCancel s (cancelled s)
| tr_timeout now k reason s :
    k ≠ HeartbeatTimer → is_Some (timer k s) →
    transition now (TimerDue k) s (timed_out k reason s)
| tr_ping now s :
    closed s = false → clientDisconnected s = false →
    transition now (TimerDue HeartbeatTimer) s (pinged now s)
| tr_heartbeat_stopped now s :
    transition now (TimerDue HeartbeatTimer) s (set_heartbeat None s).

(** The stream of a request at time [now], before any input. *)
Definition started (now : Z) (model : option string) : state :=
  snd (start cfg now model initial).

Definition preamble (now : Z) (model : option string) : list Frame :=
  [MessageStart ("msg_" ++ pretty now)%string model; ContentBlockStart 0].

Record wf (s : state) : Prop := {
  wf_cancel_closes : clientDisconnected s = true → closed s = true;
  wf_ended :
    suspended s = false →
    closed s = true ∧ timeoutId s = None ∧ inactivityTimeoutId s = None
    ∧ heartbeat s = None;
  wf_cancel_clears :
    clientDisconnected s = true →
    timeoutId s = None ∧ inactivityTimeoutId s = None;
  wf_open : closed s = false → aborted s = None;
  wf_closed :
    closed s = true → suspended s = true →
    clientDisconnected s = true ∨ aborted s ≠ None
}.

(** Frames that may stand between the preamble and the end of a
    stream. *)
Definition middle (f : Frame) : Prop :=
  match f with
  | ContentBlockStart _ | ContentBlockDelta _ _ | ContentBlockStop _ | Ping => True
  | _ => False
  end.

(** [start] is over and no timeout has fired. *)
Definition settled (s : state) : Prop :=
  suspended s = false ∧ aborted s = None.

(** The frames written so far: the preamble and middle frames, and once
    [start] is over either nothing more (after a timeout, or a
    disconnect that came before the end of [start]), the three closing
    frames, or one error frame. *)
Definition shape (pre : list Frame) (s : state) : Prop :=
  ∃ mid, Forall middle mid ∧
    ((frames s = pre ++ mid ∧
      (suspended s = true ∨ clientDisconnected s = true ∨ aborted s ≠ None))
     ∨ (frames s = pre ++ mid ++ closing_frames ∧ settled s)
     ∨ (∃ e, frames s = pre ++ mid ++ [error_frame e] ∧ settled s)).

(** Once a stream event was seen, the loop knows it until it ends. *)
Definition seen_or_over (s : state) : Prop :=
  hasStreamEvents s = true ∨ suspended s = false.

(** The frames of the fallback path, as the position of each text block
    among the text blocks of the turn gives them. *)
Definition fallback_frames (content : list Block) : list Frame :=
  concat (imap triad (filter (λ b, Is_true (is_text b)) content)).

End WithTimeouts.

End StreamStates.

Definition stream_of (h : Handling) : option Stream.state :=
  match h with
  | Streaming _ _ s => Some s
  | _ => None
  end.

(** A sequence of frames that opens with [message_start] and
    [content_block_start] for index 0 and ends with the closing frames,
    or with one error frame in their place; [P] holds of the frames
    in between. *)
Definition framed (P : Frame → Prop) (fs : list Frame) : Prop :=
  ∃ id model mid, Forall P mid ∧
    (fs = ([MessageStart id model; ContentBlockStart 0] ++ mid
           ++ [ContentBlockStop 0; MessageDelta "end_turn"; MessageStop])%list
     ∨ ∃ type message,
         fs = ([MessageStart id model; ContentBlockStart 0] ++ mid
               ++ [ErrorFrame type message])%list).

Definition demo_request (stream : option bool) (sid : option string) : Request :=
  mkRequest (Json (mkBody (Some "sonnet") stream (Some [mkMessage "user" (CString "hi")]))) sid.

(** The classification of a streaming failure as the specification
    words it: the frame for each thrown value. *)
Definition claimed_error_frame (e : Js.thrown) : Frame :=
  let m := Js.errorMessage e in
  if Js.includes m "exited with code 1" || Js.includes m "exit code 1"
  then ErrorFrame "authentication_error" auth_message
  else if Js.includes m "process aborted" || Js.includes m "aborted by user"
  then ErrorFrame "api_error" abort_message
  else if Js.includes m "reset" || Js.includes m "ECONNRESET"
          || match e with
             | Js.Error name _ => String.eqb name "AbortError"
             | Js.NotError _ => false
             end
  then ErrorFrame "connection_error" m
  else ErrorFrame "api_error" m.

(** * The rest of [server.ts] and [types.ts] *)

(** ** [parseInt(s, 10)] and the timeouts of the environment *)

(** The white space [parseInt] and [trim] skip, among the ASCII
    characters: tab, line feed, vertical tab, form feed, carriage return,
    space.  The white space beyond ASCII (U+00A0, U+FEFF, U+2028 and the
    like) is left out: [trimStart], [trimEnd], [trim] and [parseInt10]
    are those of JavaScript on ASCII strings. *)
Definition is_whitespace (c : ascii) : bool :=
  (N_of_ascii c =? 9)%N || (N_of_ascii c =? 10)%N || (N_of_ascii c =? 11)%N
  || (N_of_ascii c =? 12)%N || (N_of_ascii c =? 13)%N || (N_of_ascii c =? 32)%N.

Fixpoint trimStart (s : string) : string :=
  match s with
  | EmptyString => EmptyString
  | String c s' => if is_whitespace c then trimStart s' else s
  end.

Fixpoint trimEnd (s : string) : string :=
  match s with
  | EmptyString => EmptyString
  | String c s' =>
      match trimEnd s' with
      | EmptyString => if is_whitespace c then EmptyString else String c EmptyString
      | t => String c t
      end
  end.

(** [s.trim()] *)
Definition trim (s : string) : string := trimEnd (trimStart s).

Definition digit_value (c : ascii) : option Z :=
  let n := N_of_ascii c in
  if (48 <=? n)%N && (n <=? 57)%N then Some (Z.of_N n - 48) else None.

(** The longest run of decimal digits at the front of [s], read as a
    number after the digits read so far ([acc], [seen] when there was
    one); no digit at all is [NaN], here [None]. *)
Fixpoint digits_from (acc : Z) (seen : bool) (s : string) : option Z :=
  match s with
  | EmptyString => if seen then Some acc else None
  | String c s' =>
      match digit_value c with
      | Some d => digits_from (acc * 10 + d) true s'
      | None => if seen then Some acc else None
      end
  end.

(** [parseInt(s, 10)]: leading white space, a sign, digits, and
    whatever follows them is ignored.  The result is the integer the
    digits denote, which is the number [parseInt] returns as long as its
    absolute value is at most 2^53; beyond that [parseInt] returns a
    number next to it, which is left out. *)
Definition parseInt10 (s : string) : option Z :=
  match trimStart s with
  | EmptyString => None
  | String c rest =>
      if Ascii.eqb c "-" then Z.opp <$> digits_from 0 false rest
      else if Ascii.eqb c "+" then digits_from 0 false rest
      else digits_from 0 false (String c rest)
  end.

(** The variables of [process.env] the server reads. *)
Record ProcessEnv : Type := mkEnv {
  CLAUDE_PROXY_DEBUG : option string;
  CLAUDE_PROXY_PERMISSION_MODE : option string;
  CLAUDE_PROXY_CWD : option string;
  CLAUDE_PROXY_TIMEOUT_MS : option string;
  CLAUDE_PROXY_INACTIVITY_MS : option string
}.

(** [parseInt(process.env.CLAUDE_PROXY_TIMEOUT_MS || "3600000", 10)]
    (lines 124, 197 and 643). *)
Definition timeoutMs (env : ProcessEnv) : option Z :=
  parseInt10 (Js.or_else (CLAUDE_PROXY_TIMEOUT_MS env) "3600000").

(** [parseInt(process.env.CLAUDE_PROXY_INACTIVITY_MS || "900000", 10)]
    (lines 198 and 644). *)
Definition inactivityMs (env : ProcessEnv) : option Z :=
  parseInt10 (Js.or_else (CLAUDE_PROXY_INACTIVITY_MS env) "900000").

(** The timeouts of a request, when both are numbers. *)
Definition timeouts_of_env (env : ProcessEnv) : option Timeouts :=
  total ← timeoutMs env; inactivity ← inactivityMs env;
  Some (mkTimeouts total inactivity).

(** ** The configuration ([types.ts], and line 57 of [server.ts]) *)

(** [permissionMode] is a string: the cast of the environment variable
    to [PermissionMode] checks nothing. *)
Record ProxyConfig : Type := mkConfig {
  port : Z;
  host : string;
  debug : bool;
  permissionMode : string;
  workingDirectory : option string
}.

(** [Partial<ProxyConfig>]: a field is [None] when its key is absent. *)
Record PartialConfig : Type := mkPartial {
  given_port : option Z;
  given_host : option string;
  given_debug : option bool;
  given_permissionMode : option string;
  given_workingDirectory : option string
}.

(** [cwd] is [process.cwd()]. *)
Definition DEFAULT_PROXY_CONFIG (env : ProcessEnv) (cwd : string) : ProxyConfig :=
  {| port := 3456;
     host := "127.0.0.1";
     debug := match CLAUDE_PROXY_DEBUG env with
              | Some v => String.eqb v "1"
              | None => false
              end;
     permissionMode := Js.or_else (CLAUDE_PROXY_PERMISSION_MODE env) "bypassPermissions";
     workingDirectory := Some (Js.or_else (CLAUDE_PROXY_CWD env) cwd) |}.

(** [{ ...DEFAULT_PROXY_CONFIG, ...config }] *)
Definition finalConfig (env : ProcessEnv) (cwd : string) (config : PartialConfig)
  : ProxyConfig :=
  let d := DEFAULT_PROXY_CONFIG env cwd in
  {| port := default (port d) (given_port config);
     host := default (host d) (given_host config);
     debug := default (debug d) (given_debug config);
     permissionMode := default (permissionMode d) (given_permissionMode config);
     workingDirectory := match given_workingDirectory config with
                         | Some w => Some w
                         | None => workingDirectory d
                         end |}.

(** A configuration passed as the argument of [createProxyServer]. *)
Definition as_partial (c : ProxyConfig) : PartialConfig :=
  {| given_port := Some (port c); given_host := Some (host c);
     given_debug := Some (debug c);
     given_permissionMode := Some (permissionMode c);
     given_workingDirectory := workingDirectory c |}.

(** ** [stderrHandler] (lines 87-99) *)

(** What the handler leaves behind: the buffer [stderrMessages], the
    lines printed with [console.error], and the messages logged as
    [proxy.sdk.abort_detected]. *)
Record Diagnostics : Type := mkDiagnostics {
  stderrMessages : list string;
  printed : list string;
  abort_detected : list string
}.

Definition no_diagnostics : Diagnostics := mkDiagnostics [] [] [].

Definition stderrHandler (debug : bool) (data : string) (d : Diagnostics)
  : Diagnostics :=
  {| stderrMessages := stderrMessages d ++ [data];
     printed :=
       if debug || Js.includes data "error" || Js.includes data "failed"
          || Js.includes data "abort"
       then printed d ++ [data] else printed d;
     abort_detected :=
       if Js.includes data "aborted" then abort_detected d ++ [data]
       else abort_detected d |}.

(** The handler on the chunks the engine writes, in order. *)
Definition stderr_all (debug : bool) (chunks : list string) (d : Diagnostics)
  : Diagnostics :=
  fold_left (fun d data => stderrHandler debug data d) chunks d.

(** ** [resolveClaudeExecutable] (lines 31-46) *)

(** What the function asks of the machine: the path of the SDK module
    ([None] when resolving it throws), [dirname] and [join] of the path
    module, [existsSync], and the output of [which claude] ([None] when
    the command fails). *)
Record Machine : Type := mkMachine {
  sdkPath : option string;
  dirname : string → string;
  join : string → string → string;
  existsSync : string → bool;
  which_claude : option string
}.

Definition not_found : Js.thrown :=
  Js.Error "Error"
    "Could not find Claude Code executable. Install via: npm install -g @anthropic-ai/claude-code".

(** The first [try]: the [cli.js] beside the SDK module. *)
Definition sdkCliJs (m : Machine) : option string :=
  match sdkPath m with
  | Some p =>
      let candidate := join m (dirname m p) "cli.js" in
      if existsSync m candidate then Some candidate else None
  | None => None
  end.

(** The second [try]: the [claude] on the path. *)
Definition claudePath (m : Machine) : option string :=
  match which_claude m with
  | Some out =>
      let p := trim out in
      if Js.truthy (Some p) && existsSync m p then Some p else None
  | None => None
  end.

Definition resolveClaudeExecutable (m : Machine) : string + Js.thrown :=
  match sdkCliJs m with
  | Some p => inl p
  | None =>
      match claudePath m with
      | Some p => inl p
      | None => inr not_found
      end
  end.

(** ** Vocabulary of the further properties *)

(** The machine with another output of [which claude]. *)
Definition with_which (out : option string) (m : Machine) : Machine :=
  {| sdkPath := sdkPath m; dirname := dirname m; join := join m;
     existsSync := existsSync m; which_claude := out |}.

Definition starts_with_digit (s : string) : bool :=
  match s with
  | EmptyString => false
  | String c _ => match digit_value c with Some _ => true | None => false end
  end.

(** All characters of the string are ASCII. *)
Fixpoint is_ascii (s : string) : bool :=
  match s with
  | EmptyString => true
  | String c s' => (N_of_ascii c <? 128)%N && is_ascii s'
  end.

Fixpoint all_whitespace (s : string) : bool :=
  match s with
  | EmptyString => true
  | String c s' => is_whitespace c && all_whitespace s'
  end.

(** The engine ends or fails. *)
Definition is_terminal (i : Input) : bool :=
  match i with
  | EngineDone | EngineThrow _ => true
  | _ => false
  end.

(** The text blocks of the assistant turns among the inputs, in order. *)
Definition text_blocks (inputs : list (Z * Input)) : list Block :=
  flat_map (λ ti, match ti.2 with
                  | EngineYield (Assistant _ content) =>
                      filter (λ b, Is_true (Stream.is_text b)) content
                  | _ => []
                  end) inputs.

(** A block's text as [+=] appends it to a string. *)
Definition appended_text (b : Block) : string :=
  match block_text b with
  | Some t => t
  | None => "undefined"
  end.

Definition concat_texts (blocks : list Block) : string :=
  foldr (λ b acc, appended_text b ++ acc) "" blocks.

(** The session identifiers the assistant turns among the inputs
    report, in order. *)
Definition reported_sessions (inputs : list (Z * Input)) : list string :=
  flat_map (λ ti, match ti.2 with
                  | EngineYield (Assistant (Some sid) _) =>
                      if String.eqb sid "" then [] else [sid]
                  | _ => []
                  end) inputs.

(** Engine messages as inputs. *)
Definition yields (ms : list (Z * SDKMessage)) : list (Z * Input) :=
  map (λ tm, (tm.1, EngineYield tm.2)) ms.

Definition is_stream_event (m : SDKMessage) : bool :=
  match m with
  | StreamEvent _ => true
  | _ => false
  end.

(** What the loop writes for a run of engine messages, [seen] saying
    whether a stream event came before them. *)
Fixpoint translated (seen : bool) (ms : list SDKMessage) : list Frame :=
  match ms with
  | [] => []
  | m :: rest =>
      (StreamStates.emitted seen m ++ translated (seen || is_stream_event m) rest)%list
  end.

(** The text a client puts together from the deltas of a stream. *)
Definition streamed_text (fs : list Frame) : string :=
  foldr (λ f acc, match f with
                  | ContentBlockDelta _ d =>
                      match delta_text d with Some t => t ++ acc | None => acc end
                  | _ => acc
                  end) "" fs.

(** Every input comes before [deadline] and less than the inactivity
    timeout after [last], the time of the engine message before it (of
    the request itself at first). *)
Fixpoint within_windows (cfg : Timeouts) (deadline last : Z)
    (inputs : list (Z * Input)) : Prop :=
  match inputs with
  | [] => True
  | (t, i) :: rest =>
      t < deadline ∧ t < last + inactivityTimeout cfg
      ∧ within_windows cfg deadline
          (match i with EngineYield _ => t | _ => last end) rest
  end.

(** The request asks for a stream. *)
Definition streaming_request (req : Request) : Prop :=
  ∃ body, json req = Json body ∧ body_stream body ≠ Some false.

(** The request asks for one JSON answer. *)
Definition buffered_request (req : Request) : Prop :=
  ∃ body, json req = Json body ∧ body_stream body = Some false.

(** The reason a timeout callback gives the abort signal. *)
Definition timeout_reason (k : TimerId) : string :=
  match k with
  | TotalTimer => "Stream timeout exceeded"
  | _ => "Stream inactivity timeout"
  end.

(** The input comes from the engine's iterator. *)
Definition from_engine (i : Input) : bool :=
  match i with
  | EngineYield _ | EngineDone | EngineThrow _ => true
  | _ => false
  end.

Definition is_ping (f : Frame) : bool :=
  match f with
  | Ping => true
  | _ => false
  end.

(** The number of keep-alive comments among the frames. *)
Definition pings (fs : list Frame) : nat :=
  length (filter (λ f, Is_true (is_ping f)) fs).

Definition is_heartbeat (i : Input) : bool :=
  match i with
  | TimerDue HeartbeatTimer => true
  | _ => false
  end.

(** The number of times the runtime calls the heartbeat back. *)
Definition heartbeat_calls (inputs : list (Z * Input)) : nat :=
  length (filter (λ ti, Is_true (is_heartbeat ti.2)) inputs).

(** The timers of a stream that no timeout has hit: the abort signal
    is not triggered, the total timer is cleared or pending for
    [deadline], the inactivity timer is cleared or pending for the
    inactivity timeout after [last]. *)
Definition timers_set (cfg : Timeouts) (deadline last : Z) (s : Stream.state)
  : Prop :=
  Stream.aborted s = None
  ∧ (Stream.timeoutId s = None ∨ Stream.timeoutId s = Some deadline)
  ∧ (Stream.inactivityTimeoutId s = None
     ∨ Stream.inactivityTimeoutId s = Some (last + inactivityTimeout cfg)).

(** The engine sends whole assistant turns only, no stream events, and
    every text block has its text. *)
Definition texts_present (ms : list (Z * SDKMessage)) : Prop :=
  Forall (λ tm, match tm.2 with
                | Assistant _ content =>
                    Forall (λ b, Is_true (Stream.is_text b) → block_text b ≠ None)
                           content
                | StreamEvent _ => False
                | _ => True
                end) ms.

(** The text of a JSON message response. *)
Definition response_text (r : option Response) : option string :=
  match r with
  | Some r => match body r with
              | MessageJson _ text _ => Some text
              | _ => None
              end
  | None => None
  end.

Definition query_of (h : Handling) : option Query :=
  match h with
  | Failed _ => None
  | Buffering q _ _ => Some q
  | Streaming q _ _ => Some q
  end.

(** * Properties *)

(** ** Timers *)

Lemma timer_delay_in_range (ms : Z) : in_timer_range ms → timer_delay ms = ms.
Proof.
  unfold in_timer_range, timer_delay. intros [H1 H2].
  destruct (Z.leb_spec 1 ms); [|lia].
  destruct (Z.leb_spec ms 2147483647); [reflexivity|lia].
Qed.

(** The timer waits as long as asked, unless the delay is too large. *)
Lemma timer_delay_ge (ms : Z) : ms ≤ 2147483647 → ms ≤ timer_delay ms.
Proof.
  unfold timer_delay. intros H.
  destruct (Z.leb_spec 1 ms), (Z.leb_spec ms 2147483647); cbn; lia.
Qed.

(** The timer waits no longer than asked, from one millisecond on. *)
Lemma timer_delay_le (ms : Z) : 1 ≤ ms → timer_delay ms ≤ ms.
Proof.
  unfold timer_delay. intros H.
  destruct (Z.leb_spec 1 ms), (Z.leb_spec ms 2147483647); cbn; lia.
Qed.

(** ** Strings *)

Lemma string_app_nil_l (b : string) : "" ++ b = b.
Proof. reflexivity. Qed.

Lemma string_app_cons x (a b : string) : String x a ++ b = String x (a ++ b).
Proof. reflexivity. Qed.

Lemma string_app_assoc (a b c : string) : (a ++ b) ++ c = a ++ (b ++ c).
Proof.
  induction a as [|x a IH]; [reflexivity|].
  rewrite !string_app_cons. now rewrite IH.
Qed.

Lemma string_app_nil_r (a : string) : a ++ "" = a.
Proof.
  induction a as [|x a IH]; [reflexivity|].
  rewrite string_app_cons. now rewrite IH.
Qed.


Lemma or_else_empty (s : string) : Js.or_else (Some s) "" = s.
Proof.
  unfold Js.or_else. destruct (String.eqb_spec s ""); congruence.
Qed.

(** ** The prompt compiler *)

Lemma join_from_acc sep R k l :
  Js.join_from sep R (S k) l = R ++ Js.join_from sep "" (S k) l.
Proof.
  revert R k. induction l as [|x l IH]; intros R k; simpl.
  - now rewrite string_app_nil_r.
  - rewrite IH. rewrite (IH (_ ++ x)).
    now rewrite string_app_nil_l, !string_app_assoc.
Qed.

Lemma join_from_index sep R k k' l :
  Js.join_from sep R (S k) l = Js.join_from sep R (S k') l.
Proof.
  revert R k k'. induction l as [|x l IH]; intros R k k'; simpl; [reflexivity|].
  apply IH.
Qed.

Lemma join_cons sep x l :
  Js.join sep (x :: l) = x ++ Js.join_from sep "" 1 l.
Proof. unfold Js.join. simpl. rewrite string_app_nil_l. apply join_from_acc. Qed.

Lemma join_from_cons sep x l :
  Js.join_from sep "" 1 (x :: l) = sep ++ x ++ Js.join_from sep "" 1 l.
Proof.
  simpl. rewrite join_from_acc, (join_from_index _ _ 1 0).
  now rewrite string_app_nil_l, string_app_assoc.
Qed.







(** ** Substring search *)

Lemma prefix_true_iff (p s : string) :
  String.prefix p s = true ↔ ∃ rest, s = p ++ rest.
Proof.
  revert s. induction p as [|x p IH]; intros s.
  - split; [intros _; now exists s | intros _; now destruct s].
  - destruct s as [|y s]; simpl.
    + split; [discriminate | intros [rest E]; discriminate E].
    + destruct (ascii_dec x y) as [->|N].
      * rewrite IH. split; intros [rest E]; exists rest.
        -- now rewrite string_app_cons, <- E.
        -- rewrite string_app_cons in E. now injection E.
      * split; [discriminate|].
        intros [rest E]. rewrite string_app_cons in E. injection E as ? ?.
        congruence.
Qed.

Lemma includes_unfold (s sub : string) :
  Js.includes s sub
  = if String.prefix sub s then true
    else match s with
         | EmptyString => false
         | String _ s' => Js.includes s' sub
         end.
Proof. destruct s; reflexivity. Qed.

Lemma includes_true_iff (s sub : string) :
  Js.includes s sub = true ↔ occurs_in sub s.
Proof.
  induction s as [|x s IH]; rewrite includes_unfold;
    destruct (String.prefix sub _) eqn:P.
  - split; [intros _|reflexivity].
    apply prefix_true_iff in P as [rest E]. now exists "", rest.
  - split; [discriminate|].
    intros [[|? ?] [after E]]; [|discriminate E].
    rewrite string_app_nil_l in E.
    assert (String.prefix sub "" = true) as P'
      by (apply prefix_true_iff; now exists after).
    congruence.
  - split; [intros _|reflexivity].
    apply prefix_true_iff in P as [rest E]. now exists "", rest.
  - rewrite IH. split.
    + intros [before [after E]]. exists (String x before), after.
      now rewrite string_app_cons, <- E.
    + intros [[|y before] [after E]].
      * rewrite string_app_nil_l in E.
        assert (String.prefix sub (String x s) = true) as P'
          by (apply prefix_true_iff; now exists after).
        congruence.
      * rewrite string_app_cons in E. injection E as ? E.
        now exists before, after.
Qed.

(** ** The error classifiers *)

Lemma isExitCode1_iff e : isExitCode1 e = true ↔ exit_code_1 e.
Proof.
  unfold isExitCode1, exit_code_1.
  rewrite orb_true_iff, !includes_true_iff. reflexivity.
Qed.

Lemma isSdkAbort_iff e : isSdkAbort e = true ↔ sdk_abort e.
Proof.
  unfold isSdkAbort, sdk_abort.
  rewrite orb_true_iff, !includes_true_iff. reflexivity.
Qed.

Lemma isConnectionReset_iff e :
  isConnectionReset e = true ↔ ¬ sdk_abort e ∧ connection_reset e.
Proof.
  unfold isConnectionReset, connection_reset.
  rewrite andb_true_iff, negb_true_iff, <- not_true_iff_false, isSdkAbort_iff.
  apply and_iff_compat_l.
  destruct e as [name message|s].
  - rewrite !orb_true_iff, !includes_true_iff, String.eqb_eq. split.
    + intros H. exists name, message. tauto.
    + intros (n & m & E & H). injection E as -> ->. tauto.
  - split; [discriminate|]. intros (n & m & E & _). discriminate E.
Qed.

Lemma classifyStreamError_cases (e : Js.thrown) :
  (exit_code_1 e →
     classifyStreamError e = ("authentication_error", auth_message)) ∧
  (¬ exit_code_1 e → sdk_abort e →
     classifyStreamError e = ("api_error", abort_message)) ∧
  (¬ exit_code_1 e → ¬ sdk_abort e → connection_reset e →
     classifyStreamError e = ("connection_error", Js.errorMessage e)) ∧
  (¬ exit_code_1 e → ¬ sdk_abort e → ¬ connection_reset e →
     classifyStreamError e = ("api_error", Js.errorMessage e)).
Proof.
  unfold classifyStreamError.
  pose proof (isExitCode1_iff e) as H1.
  pose proof (isSdkAbort_iff e) as H2.
  pose proof (isConnectionReset_iff e) as H3.
  destruct (isExitCode1 e), (isSdkAbort e), (isConnectionReset e);
    repeat split; intros; try reflexivity; exfalso;
    try (apply H1 in H; discriminate);
    intuition congruence.
Qed.

(** ** The streaming loop, one statement at a time *)

Module StreamFacts.
Import Stream StreamStates.
Local Open Scope list_scope.

#[local] Arguments is_text_delta : simpl never.
#[local] Arguments forwards_block_start : simpl never.
#[local] Arguments classifyStreamError : simpl never.
#[local] Arguments Js.truthy : simpl never.

Ltac run_eff :=
  unfold process_message, closing, on_error, settle, resume, start, cancel,
    on_timeout, on_heartbeat, forward_stream_event, fallback, clearTimeouts,
    clearHeartbeat, resetInactivityTimeout, abort, enqueue, close, when,
    try_catch, bind, ret, throw, get, modify,
    set_frames, set_closed, set_aborted, set_timeoutId,
    set_inactivityTimeoutId, set_heartbeat, set_clientDisconnected,
    set_currentSessionId, set_turnCount, set_hasResult, set_hasStreamEvents,
    set_suspended in *;
  cbn in *.

Lemma fallback_from_open i l s :
  closed s = false →
  fallback_from i l s = (Normal tt, set_frames (frames s ++ triads_from i l) s).
Proof.
  revert i s. induction l as [|b l IH]; intros i s Hopen.
  - destruct s; run_eff. now rewrite app_nil_r.
  - simpl fallback_from. unfold bind at 1.
    assert (when (is_text b)
              (bind (enqueue (ContentBlockStart (Z.of_nat i))) (λ _,
               bind (enqueue (ContentBlockDelta (Z.of_nat i)
                                (mkDelta (Some "text_delta") (block_text b)))) (λ _,
               enqueue (ContentBlockStop (Z.of_nat i))))) s
            = (Normal tt, set_frames (frames s ++ (if is_text b then triad i b else [])) s)) as ->.
    { destruct s; run_eff. subst. destruct (is_text b); cbn.
      - now rewrite <- !app_assoc.
      - now rewrite app_nil_r. }
    rewrite IH by (destruct s; exact Hopen).
    destruct s; run_eff. now rewrite <- app_assoc.
Qed.

Lemma fallback_from_closed i l s :
  closed s = true → ∃ r, fallback_from i l s = (r, s).
Proof.
  revert i s. induction l as [|b l IH]; intros i s Hclosed.
  - now exists (Normal tt).
  - simpl fallback_from. unfold bind at 1.
    destruct (is_text b) eqn:T.
    + exists (Throw controller_closed). destruct s; run_eff. subst. reflexivity.
    + destruct (IH (S i) s Hclosed) as [r E]. exists r.
      unfold when. unfold ret. exact E.
Qed.

Section WithTimeouts.
Variable cfg : Timeouts.

Lemma process_message_disconnected now m s :
  clientDisconnected s = true →
  process_message cfg now m s = (Normal Break, s).
Proof. intros H. destruct s; run_eff. subst. reflexivity. Qed.

Lemma process_message_open now m s :
  clientDisconnected s = false → closed s = false →
  process_message cfg now m s
  = (Normal Continue,
     set_frames (frames s ++ emitted (hasStreamEvents s) m) (bookkeep cfg now m s)).
Proof.
  intros Hcd Hopen. unfold bookkeep.
  destruct s as [? ? ? ? ? ? ? cur ? ? seen ?]; cbn in Hcd, Hopen; subst.
  destruct m as [sid content|tr| |event|ty].
  - destruct seen.
    + run_eff. destruct (Js.truthy sid); cbn; [destruct (Js.truthy cur)|];
        cbn; now rewrite app_nil_r.
    + unfold process_message, bind, modify, when, get, ret, set_turnCount,
        set_currentSessionId, set_inactivityTimeoutId, resetInactivityTimeout,
        fallback, set_frames; cbn.
      destruct (Js.truthy sid); cbn; [destruct (Js.truthy cur)|]; cbn;
        rewrite fallback_from_open by reflexivity; reflexivity.
  - run_eff. now rewrite app_nil_r.
  - run_eff. now rewrite app_nil_r.
  - run_eff.
    destruct event as [i ty|i [d|]|i|ty]; cbn; try now rewrite app_nil_r.
    + destruct (forwards_block_start ty); cbn; now rewrite ?app_nil_r.
    + destruct (is_text_delta (Some d)); cbn; now rewrite ?app_nil_r.
    + reflexivity.
  - run_eff. now rewrite app_nil_r.
Qed.

Lemma process_message_closed now m s :
  clientDisconnected s = false → closed s = true →
  ∃ r, process_message cfg now m s = (r, bookkeep cfg now m s)
       ∧ r ≠ Normal Break.
Proof.
  intros Hcd Hclosed.
  destruct m as [sid content|tr| |event|ty].
  - destruct (fallback_from_closed 0
                (filter (fun b => Is_true (is_text b)) content)
                (bookkeep cfg now (Assistant sid content) s))
      as [r E]; [destruct s; exact Hclosed|].
    exists (if hasStreamEvents s then Normal Continue
            else match r with Normal _ => Normal Continue | Throw e => Throw e end).
    split; [|destruct (hasStreamEvents s), r; discriminate].
    unfold bookkeep in *.
    destruct s as [? ? ? ? ? ? ? cur ? ? seen ?]; cbn in Hcd, Hclosed; subst.
    unfold process_message, bind, modify, when, get, ret, set_turnCount,
      set_currentSessionId, set_inactivityTimeoutId, resetInactivityTimeout,
      fallback; cbn in *.
    destruct (Js.truthy sid); cbn in *; [destruct (Js.truthy cur)|]; cbn in *;
      destruct seen; cbn; try reflexivity; rewrite E; destruct r; reflexivity.
  - exists (Normal Continue). split; [|discriminate].
    destruct s; run_eff. subst. reflexivity.
  - exists (Normal Continue). split; [|discriminate].
    destruct s; run_eff. subst. reflexivity.
  - destruct event as [i ty|i [d|]|i|ty].
    + exists (if forwards_block_start ty then Throw controller_closed else Normal Continue).
      split; [|destruct (forwards_block_start ty); discriminate].
      destruct s; run_eff. subst. destruct (forwards_block_start ty); reflexivity.
    + exists (if is_text_delta (Some d) then Throw controller_closed else Normal Continue).
      split; [|destruct (is_text_delta (Some d)); discriminate].
      destruct s; run_eff. subst. destruct (is_text_delta (Some d)); reflexivity.
    + exists (Normal Continue). split; [|discriminate].
      destruct s; run_eff. subst. reflexivity.
    + exists (Throw controller_closed). split; [|discriminate].
      destruct s; run_eff. subst. reflexivity.
    + exists (Normal Continue). split; [|discriminate].
      destruct s; run_eff. subst. reflexivity.
  - exists (Normal Continue). split; [|discriminate].
    destruct s; run_eff. subst. reflexivity.
Qed.

Lemma finish_open s :
  closed s = false →
  settle (try_catch (bind clearHeartbeat (λ _, closing)) on_error) s
  = ended (frames s ++ closing_frames) s.
Proof.
  intros H. destruct s; run_eff. subst. cbn.
  unfold ended. cbn. now rewrite <- !app_assoc.
Qed.

Lemma finish_closed s :
  closed s = true →
  settle (try_catch (bind clearHeartbeat (λ _, closing)) on_error) s
  = ended (frames s) s.
Proof.
  intros H. destruct s as [? ? ? ? ? ? cd ? ? ? ? ?]; run_eff. subst. cbn.
  destruct cd; cbn; [reflexivity|].
  destruct (classifyStreamError controller_closed); reflexivity.
Qed.

Lemma fail_open e s :
  closed s = false → clientDisconnected s = false →
  settle (bind clearHeartbeat (λ _, on_error e)) s
  = ended (frames s ++ [error_frame e]) s.
Proof.
  intros H1 H2. unfold error_frame. destruct s; run_eff. subst. cbn.
  destruct (classifyStreamError e); reflexivity.
Qed.

Lemma fail_silent e s :
  closed s = true ∨ clientDisconnected s = true →
  settle (bind clearHeartbeat (λ _, on_error e)) s
  = ended (frames s) s.
Proof.
  intros H. destruct s as [? cl ? ? ? ? cd ? ? ? ? ?]; run_eff.
  destruct cd, cl; cbn; try reflexivity;
    try (destruct (classifyStreamError e); reflexivity).
  destruct H; discriminate.
Qed.

Lemma step_yield_open now m s :
  suspended s = true → clientDisconnected s = false → closed s = false →
  step cfg now (EngineYield m) s
  = set_frames (frames s ++ emitted (hasStreamEvents s) m) (bookkeep cfg now m s).
Proof.
  intros H1 H2 H3. unfold step, resume. rewrite H1.
  now rewrite process_message_open.
Qed.

Lemma step_cancel_open now s :
  clientDisconnected s = false → step cfg now ClientCancel s = cancelled s.
Proof. intros H. unfold step. rewrite H. destruct s; reflexivity. Qed.

Lemma step_transition now i s : transition cfg now i s (step cfg now i s).
Proof.
  destruct i as [m| |e| |k]; unfold step.
  - destruct (suspended s) eqn:Hs; [|constructor].
    unfold resume.
    destruct (clientDisconnected s) eqn:Hcd.
    + rewrite process_message_disconnected by assumption.
      destruct (closed s) eqn:Hcl.
      * rewrite finish_closed by assumption. apply tr_silent; auto.
      * rewrite finish_open by assumption. now apply tr_closing.
    + destruct (closed s) eqn:Hcl.
      * destruct (process_message_closed now m s Hcd Hcl) as (r & -> & Hr).
        destruct r as [[|]|e'].
        -- now apply tr_message_closed.
        -- congruence.
        -- rewrite fail_silent by (left; destruct s; exact Hcl).
           replace (frames (bookkeep cfg now m s)) with (frames s)
             by (destruct s; reflexivity).
           now apply tr_silent_message.
      * rewrite process_message_open by assumption.
        now apply tr_message.
  - destruct (suspended s) eqn:Hs; [|constructor].
    unfold resume, ret.
    destruct (closed s) eqn:Hcl.
    + rewrite finish_closed by assumption. apply tr_silent; auto.
    + rewrite finish_open by assumption. now apply tr_closing.
  - destruct (suspended s) eqn:Hs; [|constructor].
    unfold resume, throw.
    destruct (closed s) eqn:Hcl.
    + rewrite fail_silent by auto. apply tr_silent; auto.
    + destruct (clientDisconnected s) eqn:Hcd.
      * rewrite fail_silent by auto. apply tr_silent; auto.
      * rewrite fail_open by assumption. now apply tr_error.
  - destruct (clientDisconnected s) eqn:Hcd; [constructor|].
    replace (snd _) with (cancelled s) by (destruct s; reflexivity).
    now apply tr_cancel.
  - destruct k.
    + destruct (due (timeoutId s) now) eqn:Hd; [|constructor].
      replace (snd _) with (timed_out TotalTimer "Stream timeout exceeded" s).
      * apply tr_timeout; [discriminate|].
        cbn. destruct (timeoutId s); [eauto|discriminate].
      * destruct s as [? cl ab ? ? ? ? ? ? ? ? ?]; run_eff.
        destruct ab, cl; reflexivity.
    + destruct (due (inactivityTimeoutId s) now) eqn:Hd; [|constructor].
      replace (snd _) with (timed_out InactivityTimer "Stream inactivity timeout" s).
      * apply tr_timeout; [discriminate|].
        cbn. destruct (inactivityTimeoutId s); [eauto|discriminate].
      * destruct s as [? cl ab ? ? ? ? ? ? ? ? ?]; run_eff.
        destruct ab, cl; reflexivity.
    + destruct (due (heartbeat s) now) eqn:Hd; [|constructor].
      destruct (clientDisconnected s) eqn:Hcd.
      * replace (snd _) with (set_heartbeat None s);
          [constructor | destruct s; run_eff; subst; reflexivity].
      * destruct (closed s) eqn:Hcl.
        -- replace (snd _) with (set_heartbeat None s);
             [constructor | destruct s; run_eff; subst; reflexivity].
        -- replace (snd _) with (pinged now s);
             [now constructor | destruct s; run_eff; subst; reflexivity].
Qed.

Lemma started_eq now model :
  started cfg now model
  = mk (preamble now model) false None
       (Some (now + timer_delay (streamTimeout cfg)))
       (Some (now + timer_delay (inactivityTimeout cfg)))
       (Some (now + heartbeat_period))
       false None 0 false false true.
Proof. reflexivity. Qed.

Lemma wf_started now model : wf (started cfg now model).
Proof. rewrite started_eq. split; cbn; intros; try discriminate; auto. Qed.

Ltac use_armed :=
  match goal with
  | k : TimerId, H : is_Some _ |- _ =>
      destruct k; cbn in H; destruct H as [? H]; try congruence; subst
  end.

Lemma wf_transition now i s s' : transition cfg now i s s' → wf s → wf s'.
Proof.
  intros T [W1 W2 W3 W4 W5].
  destruct T as [now i s|now m s Hs Hcd Hcl|now m s Hs Hcd Hcl|now i s Hs Hcl
                 |now e s Hs Hcl Hcd|now i s Hs H|now m s Hs Hcd Hcl|now s Hcl
                 |now k reason s Hk Ha|now s Hcl Hcd|now s];
    destruct s as [fr cl ab ti ia hb cd sid tc hr hse su];
    cbn in *; subst; try use_armed;
    split; cbn; intros; subst; try discriminate; auto;
    try (intuition congruence).
  all: try (destruct ab; intuition congruence).
Qed.

Lemma run_app inputs1 inputs2 s :
  run cfg (inputs1 ++ inputs2) s = run cfg inputs2 (run cfg inputs1 s).
Proof. unfold run. now rewrite fold_left_app. Qed.

Lemma run_cons now i inputs s :
  run cfg ((now, i) :: inputs) s = run cfg inputs (step cfg now i s).
Proof. reflexivity. Qed.

(** An invariant of [transition] holds along every run. *)
Lemma run_invariant (P : state → Prop) :
  (∀ now i s s', transition cfg now i s s' → P s → P s') →
  ∀ inputs s, P s → P (run cfg inputs s).
Proof.
  intros Hstep inputs. induction inputs as [|[now i] inputs IH]; intros s Hs.
  - exact Hs.
  - rewrite run_cons. apply IH. eapply Hstep; [apply step_transition|exact Hs].
Qed.

Lemma wf_run inputs s : wf s → wf (run cfg inputs s).
Proof. apply run_invariant. intros t i s1 s2 T. now apply (wf_transition t i). Qed.

Lemma triads_from_middle i l : Forall middle (triads_from i l).
Proof.
  revert i. induction l as [|b l IH]; intros i; simpl; [constructor|].
  apply Forall_app. split; [|apply IH].
  destruct (is_text b); repeat constructor.
Qed.

Lemma emitted_middle seen m : Forall middle (emitted seen m).
Proof.
  destruct m as [sid content|tr| |event|ty]; simpl; try constructor.
  - destruct seen; [constructor|apply triads_from_middle].
  - destruct event as [i ty|i [d|]|i|ty]; simpl; repeat constructor.
    + destruct (forwards_block_start ty); repeat constructor.
    + destruct (is_text_delta (Some d)); repeat constructor.
Qed.

Lemma shape_started now model : shape (preamble now model) (started cfg now model).
Proof.
  exists []. split; [constructor|]. left. rewrite started_eq. cbn. auto.
Qed.

Lemma shape_transition pre now i s s' :
  transition cfg now i s s' → wf s → shape pre s → wf s' ∧ shape pre s'.
Proof.
  intros T W S. split; [now apply (wf_transition now i s)|].
  destruct W as [W1 W2 W3 W4 W5].
  destruct S as (mid & Hmid & S).
  destruct T as [now i s|now m s Hs Hcd Hcl|now m s Hs Hcd Hcl|now i s Hs Hcl
                 |now e s Hs Hcl Hcd|now i s Hs H|now m s Hs Hcd Hcl|now s Hcl
                 |now k reason s Hk Ha|now s Hcl Hcd|now s].
  - exists mid. auto.
  - destruct S as [[E _]|[[_ [? _]]|(? & _ & ? & _)]]; try congruence.
    exists (mid ++ emitted (hasStreamEvents s) m).
    split; [apply Forall_app; auto using emitted_middle|].
    left. destruct s; cbn in *. subst. rewrite app_assoc. auto.
  - destruct S as [[E _]|[[_ [? _]]|(? & _ & ? & _)]]; try congruence.
    exists mid. split; [assumption|]. left.
    destruct s; cbn in *. subst. auto.
  - destruct S as [[E _]|[[_ [? _]]|(? & _ & ? & _)]]; try congruence.
    exists mid. split; [assumption|]. right. left.
    assert (clientDisconnected s = false) as Hcd
      by (destruct (clientDisconnected s); auto; rewrite W1 in Hcl; auto).
    pose proof (W4 Hcl) as Hab.
    destruct s; cbn in *. subst. rewrite app_assoc. unfold settled. auto.
  - destruct S as [[E _]|[[_ [? _]]|(? & _ & ? & _)]]; try congruence.
    exists mid. split; [assumption|]. right. right. exists e.
    pose proof (W4 Hcl) as Hab.
    destruct s; cbn in *. subst. rewrite app_assoc. unfold settled. auto.
  - destruct S as [[E _]|[[_ [? _]]|(? & _ & ? & _)]]; try congruence.
    exists mid. split; [assumption|]. left.
    destruct s; cbn in *. subst. split; [reflexivity|]. right.
    destruct H as [H|H]; [|auto]. destruct (W5 H eq_refl); auto.
  - destruct S as [[E _]|[[_ [? _]]|(? & _ & ? & _)]]; try congruence.
    exists mid. split; [assumption|]. left.
    destruct s; cbn in *. subst. split; [reflexivity|]. right.
    destruct (W5 eq_refl eq_refl); auto.
  - exists mid. split; [assumption|].
    destruct S as [[E _]|[[E [? ?]]|(e & E & ? & ?)]].
    + left. destruct s; cbn in *. auto.
    + right. left. destruct s; cbn in *. unfold settled. auto.
    + right. right. exists e. destruct s; cbn in *. unfold settled. auto.
  - assert (suspended s = true) as Hs.
    { destruct (suspended s) eqn:Hs; [reflexivity|].
      destruct (W2 eq_refl) as (_ & ? & ? & _).
      destruct k; cbn in Ha; destruct Ha as [? Ha]; congruence. }
    destruct S as [[E _]|[[_ [? _]]|(? & _ & ? & _)]]; try congruence.
    exists mid. split; [assumption|]. left.
    destruct s as [? ? ab ? ? ? ? ? ? ? ? ?]; cbn in *.
    split; [assumption|]. right. right. destruct ab; discriminate.
  - assert (suspended s = true) as Hs.
    { destruct (suspended s) eqn:Hs; [reflexivity|].
      destruct (W2 eq_refl) as [? _]. congruence. }
    destruct S as [[E _]|[[_ [? _]]|(? & _ & ? & _)]]; try congruence.
    exists (mid ++ [Ping]).
    split; [apply Forall_app; split; [assumption|repeat constructor]|].
    left. destruct s; cbn in *. subst. rewrite app_assoc. auto.
  - exists mid. split; [assumption|]. destruct s; cbn in *. exact S.
Qed.

Lemma shape_run pre inputs s :
  wf s → shape pre s →
  wf (run cfg inputs s) ∧ shape pre (run cfg inputs s).
Proof.
  intros W S.
  apply (run_invariant (λ s, wf s ∧ shape pre s)); [|auto].
  intros t i s1 s2 T [W1 S1]. now apply (shape_transition pre t i s1).
Qed.

(** Nothing is written to a closed stream. *)
Lemma transition_closed now i s s' :
  transition cfg now i s s' → closed s = true →
  closed s' = true ∧ frames s' = frames s.
Proof.
  intros T H. destruct T; destruct s; cbn in *; subst; auto; discriminate.
Qed.

Lemma step_closed now i s :
  closed s = true → frames (step cfg now i s) = frames s.
Proof.
  intros H.
  exact (proj2 (transition_closed now i s _ (step_transition now i s) H)).
Qed.


Lemma transition_seen now i s s' :
  transition cfg now i s s' → seen_or_over s → seen_or_over s'.
Proof.
  unfold seen_or_over.
  intros T H. destruct T as [| ? m ? | ? m ? | | | | ? m ? | | | |];
    try destruct m; destruct s; cbn in *; subst; auto;
    destruct H; auto; congruence.
Qed.

(** Only a stream event sets [hasStreamEvents]. *)
Lemma transition_not_seen now i s s' :
  transition cfg now i s s' → (∀ event, i ≠ EngineYield (StreamEvent event)) →
  hasStreamEvents s' = hasStreamEvents s.
Proof.
  intros T H. destruct T as [| ? m ? | ? m ? | | | | ? m ? | | | |];
    try (destruct m; try (exfalso; eapply H; reflexivity));
    destruct s; reflexivity.
Qed.

Lemma run_not_seen inputs s :
  Forall (λ ti, ∀ event, ti.2 ≠ EngineYield (StreamEvent event)) inputs →
  hasStreamEvents (run cfg inputs s) = hasStreamEvents s.
Proof.
  revert s. induction inputs as [|[now i] inputs IH]; intros s H;
    [reflexivity|].
  apply Forall_cons in H as [Hi H]. rewrite run_cons, IH by assumption.
  apply (transition_not_seen now i); [apply step_transition|exact Hi].
Qed.

(** A stream event that reaches the loop is recorded, or ends it. *)
Lemma step_stream_event_seen now event s :
  seen_or_over (step cfg now (EngineYield (StreamEvent event)) s).
Proof.
  unfold seen_or_over, step.
  destruct (suspended s) eqn:Hs; [|now right].
  unfold resume.
  destruct (clientDisconnected s) eqn:Hcd, (closed s) eqn:Hcl.
  - rewrite process_message_disconnected, finish_closed by assumption.
    now right.
  - rewrite process_message_disconnected, finish_open by assumption.
    now right.
  - destruct (process_message_closed now (StreamEvent event) s Hcd Hcl)
      as (r & -> & Hr).
    destruct r as [[|]|e']; [now left|congruence|].
    rewrite fail_silent by (left; destruct s; exact Hcl). now right.
  - rewrite process_message_open by assumption. now left.
Qed.

Lemma triads_from_imap i l :
  Forall (λ b, Is_true (is_text b)) l →
  triads_from i l = concat (imap (λ j, triad (i + j)) l).
Proof.
  revert i. induction l as [|b l IH]; intros i H; [reflexivity|].
  apply Forall_cons in H as [Hb H]. cbn [triads_from imap concat].
  apply Is_true_true in Hb. rewrite Hb, Nat.add_0_r. f_equal.
  rewrite IH by assumption. f_equal. apply imap_ext. intros j x _. cbn.
  f_equal. lia.
Qed.

Lemma emitted_fallback sid content :
  emitted false (Assistant sid content) = fallback_frames content.
Proof.
  cbn. rewrite triads_from_imap; [reflexivity|].
  apply Forall_forall. intros b Hb.
  apply list_elem_of_filter in Hb as [Hb _]. exact Hb.
Qed.


(** After a disconnect the next thing the engine does ends [start]. *)
Lemma step_disconnected t i s :
  wf s → clientDisconnected s = true → from_engine i = true →
  step cfg t i s = ended (frames s) s.
Proof.
  intros W Hcd Hi.
  pose proof (wf_cancel_closes s W Hcd) as Hcl.
  destruct (suspended s) eqn:Hs.
  - destruct i as [m| |e| |k]; try discriminate; unfold step; rewrite Hs;
      unfold resume.
    + rewrite process_message_disconnected by assumption.
      now rewrite finish_closed.
    + unfold ret. now rewrite finish_closed.
    + unfold throw. now rewrite fail_silent by auto.
  - destruct (wf_ended s W Hs) as (_ & Ht & Hin & Hh).
    replace (step cfg t i s) with s
      by (destruct i as [m| |e| |k]; try discriminate; unfold step;
          now rewrite Hs).
    destruct s; cbn in *; subst; reflexivity.
Qed.



End WithTimeouts.

End StreamFacts.

(** ** The handler and its stream *)

Lemma serve_Streaming cfg inputs q r s :
  serve cfg inputs (Streaming q r s) = Streaming q r (Stream.run cfg inputs s).
Proof.
  revert s. induction inputs as [|[now i] inputs IH]; intros s;
    [reflexivity|apply IH].
Qed.

Lemma serve_Failed cfg inputs r : serve cfg inputs (Failed r) = Failed r.
Proof. induction inputs as [|[now i] inputs IH]; [reflexivity|apply IH]. Qed.

Lemma serve_Buffering cfg inputs q m s :
  serve cfg inputs (Buffering q m s)
  = Buffering q m (Buffered.run m inputs s).
Proof.
  revert s. induction inputs as [|[now i] inputs IH]; intros s;
    [reflexivity|apply IH].
Qed.

(** The stream of a request is the one [start] set up, run on the
    inputs. *)
Lemma stream_of_serve cfg now req inputs s :
  stream_of (serve cfg inputs (handleMessages cfg now req)) = Some s →
  ∃ model, s = Stream.run cfg inputs (StreamStates.started cfg now model).
Proof.
  unfold handleMessages.
  destruct (json req) as [body|e]; [|now rewrite serve_Failed].
  destruct (negb (default true (body_stream body))).
  - now rewrite serve_Buffering.
  - rewrite serve_Streaming. cbn. intros [= <-]. now exists (body_model body).
Qed.

Lemma stream_of_serve_app cfg now req inputs1 inputs2 s :
  stream_of (serve cfg (inputs1 ++ inputs2) (handleMessages cfg now req)) = Some s →
  ∃ s1, stream_of (serve cfg inputs1 (handleMessages cfg now req)) = Some s1
        ∧ s = Stream.run cfg inputs2 s1.
Proof.
  unfold handleMessages.
  destruct (json req) as [body|e]; [|now rewrite serve_Failed].
  destruct (negb (default true (body_stream body))).
  - now rewrite serve_Buffering.
  - rewrite !serve_Streaming. cbn. intros [= <-].
    eexists. split; [reflexivity|]. apply StreamFacts.run_app.
Qed.

Lemma stream_reachable cfg now req inputs s :
  stream_of (serve cfg inputs (handleMessages cfg now req)) = Some s →
  StreamStates.wf s
  ∧ ∃ model, StreamStates.shape (StreamStates.preamble now model) s.
Proof.
  intros H. apply stream_of_serve in H as [model ->].
  destruct (StreamFacts.shape_run cfg (StreamStates.preamble now model) inputs
              (StreamStates.started cfg now model)) as [W S].
  - apply StreamFacts.wf_started.
  - apply StreamFacts.shape_started.
  - split; [exact W|]. now exists model.
Qed.

Lemma step_yield_frames cfg now m s :
  StreamStates.wf s →
  Stream.frames (Stream.step cfg now (EngineYield m) s)
  = if Stream.suspended s && negb (Stream.closed s)
    then (Stream.frames s ++ StreamStates.emitted (Stream.hasStreamEvents s) m)%list
    else Stream.frames s.
Proof.
  intros W.
  destruct (Stream.suspended s) eqn:Hs; [|unfold Stream.step; now rewrite Hs].
  destruct (Stream.closed s) eqn:Hcl; cbn [andb negb].
  - now apply StreamFacts.step_closed.
  - assert (Stream.clientDisconnected s = false) as Hcd.
    { destruct (Stream.clientDisconnected s) eqn:Hcd; [|reflexivity].
      pose proof (StreamStates.wf_cancel_closes s W Hcd). congruence. }
    rewrite StreamFacts.step_yield_open by assumption.
    now destruct s.
Qed.

(** * The claims *)

(** ** Streaming *)

(** C2, as the specification states it, fails: when the client has gone
    away and the engine then fails, the catch block closes the output
    without a frame, and the response is the two opening frames and
    nothing more, neither the closing frames nor an error frame. *)
Lemma disconnected_stream_not_framed :
  ¬ framed (λ _, True)
      (frames_of (serve default_timeouts
         [(1001, ClientCancel); (1002, EngineThrow (Js.Error "Error" "boom"))]
         (handleMessages default_timeouts 1000 (demo_request None None)))).
Proof.
  intros (id & model & mid & _ & [E|(type & message & E)]);
    apply (f_equal length) in E; cbn in E; rewrite ?length_app in E;
    cbn in E; lia.
Qed.

(** C2, amended.  When [start] has run to its end, the frames of the
    response are [message_start], [content_block_start] for index 0 and
    any number of content block frames and pings, followed by either
    [content_block_stop] for index 0, [message_delta] with stop reason
    "end_turn" and [message_stop], or one error frame, or nothing.  One
    of the two endings is there if the client has not disconnected and
    no timeout has fired; nothing follows if a timeout has fired, or if
    the client disconnected while [start] was still running. *)
Theorem ended_stream_framed cfg now req inputs s :
  stream_of (serve cfg inputs (handleMessages cfg now req)) = Some s →
  Stream.suspended s = false →
  (Stream.clientDisconnected s = false → Stream.aborted s = None →
   framed StreamStates.middle (Stream.frames s))
  ∧ (Stream.aborted s ≠ None →
     ∃ id model mid, Forall StreamStates.middle mid ∧
       Stream.frames s
       = ([MessageStart id model; ContentBlockStart 0] ++ mid)%list)
  ∧ (∀ before t after s1,
       inputs = (before ++ (t, ClientCancel) :: after)%list →
       stream_of (serve cfg before (handleMessages cfg now req)) = Some s1 →
       Stream.suspended s1 = true →
       ∃ id model mid, Forall StreamStates.middle mid ∧
         Stream.frames s
         = ([MessageStart id model; ContentBlockStart 0] ++ mid)%list)
  ∧ (framed StreamStates.middle (Stream.frames s)
     ∨ ∃ id model mid, Forall StreamStates.middle mid ∧
         Stream.frames s
         = ([MessageStart id model; ContentBlockStart 0] ++ mid)%list).
Proof.
  intros H Hs.
  pose proof (stream_reachable _ _ _ _ _ H) as [_ (model & mid & Hmid & S)].
  split; [|split; [|split]].
  - intros Hcd Hab.
    exists ("msg_" ++ pretty now), model, mid. split; [exact Hmid|].
    destruct S as [[_ [?|[?|?]]]|[[E _]|(e & E & _)]]; try congruence.
    + left. exact E.
    + right. eexists _, _. exact E.
  - intros Hab.
    exists ("msg_" ++ pretty now), model, mid. split; [exact Hmid|].
    destruct S as [[E _]|[[_ (_ & ?)]|(e & _ & _ & ?)]];
      [exact E| |]; congruence.
  - intros before t after s1 -> H1 Hs1.
    apply stream_of_serve_app in H as (s0 & H0 & ->).
    assert (s0 = s1) as -> by congruence.
    apply stream_reachable in H1 as [W1 (model1 & mid1 & Hmid1 & S1)].
    exists ("msg_" ++ pretty now), model1, mid1. split; [exact Hmid1|].
    destruct S1 as [[E1 _]|[[_ [? _]]|(e & _ & ? & _)]]; try congruence.
    transitivity (Stream.frames s1); [|exact E1].
    rewrite StreamFacts.run_cons.
    assert (Stream.closed (Stream.step cfg t ClientCancel s1) = true
            ∧ Stream.frames (Stream.step cfg t ClientCancel s1) = Stream.frames s1)
      as [Hcl Hfr].
    { destruct (Stream.clientDisconnected s1) eqn:Hcd.
      - unfold Stream.step. rewrite Hcd.
        split; [now apply (StreamStates.wf_cancel_closes s1 W1)|reflexivity].
      - rewrite StreamFacts.step_cancel_open by assumption. now split. }
    rewrite <- Hfr.
    apply (StreamFacts.run_invariant cfg
             (λ s', Stream.closed s' = true
                    ∧ Stream.frames s'
                      = Stream.frames (Stream.step cfg t ClientCancel s1)));
      [|now split].
    intros t' i s2 s3 T [C F].
    destruct (StreamFacts.transition_closed cfg t' i s2 s3 T C) as [C' F'].
    split; [exact C'|congruence].
  - destruct S as [[E _]|[[E _]|(e & E & _)]].
    + right. exists ("msg_" ++ pretty now), model, mid. now split.
    + left. exists ("msg_" ++ pretty now), model, mid. split; [exact Hmid|].
      left. exact E.
    + left. exists ("msg_" ++ pretty now), model, mid. split; [exact Hmid|].
      right. eexists _, _. exact E.
Qed.

Lemma ended_stream_framed_witness :
  framed StreamStates.middle
    [MessageStart "msg_1000" (Some "sonnet"); ContentBlockStart 0;
     ContentBlockStart 0;
     ContentBlockDelta 0 (mkDelta (Some "text_delta") (Some "hello"));
     ContentBlockStop 0;
     ContentBlockStop 0; MessageDelta "end_turn"; MessageStop].
Proof.
  exact (proj1 (ended_stream_framed default_timeouts 1000 (demo_request None None)
                  [(1001, EngineYield (Assistant (Some "abc") [mkBlock "text" (Some "hello")]));
                   (1002, EngineDone)]
                  _ eq_refl eq_refl) eq_refl eq_refl).
Defined.

(** C3.  On the stream of a request, a nested [content_block_start] whose
    block type is "tool_use" writes no frame, and neither does a nested
    [content_block_delta] whose delta is not a "text_delta"; while
    [start] is consuming engine events and the output is open, a nested
    [content_block_stop] writes the [content_block_stop] frame with the
    index of the event, whatever block it closes. *)
Theorem tool_use_suppressed_stop_forwarded cfg now req inputs s t index :
  stream_of (serve cfg inputs (handleMessages cfg now req)) = Some s →
  Stream.frames
    (Stream.step cfg t
       (EngineYield (StreamEvent (EvContentBlockStart index (Some "tool_use")))) s)
  = Stream.frames s
  ∧ (∀ delta,
       (∀ d, delta = Some d → delta_type d ≠ Some "text_delta") →
       Stream.frames
         (Stream.step cfg t
            (EngineYield (StreamEvent (EvContentBlockDelta index delta))) s)
       = Stream.frames s)
  ∧ (Stream.suspended s = true → Stream.closed s = false →
     Stream.frames
       (Stream.step cfg t (EngineYield (StreamEvent (EvContentBlockStop index))) s)
     = (Stream.frames s ++ [ContentBlockStop index])%list).
Proof.
  intros H. apply stream_reachable in H as [W _].
  repeat split.
  - rewrite step_yield_frames by assumption.
    destruct (_ && _); [apply app_nil_r|reflexivity].
  - intros delta Hd. rewrite step_yield_frames by assumption.
    destruct (_ && _); [|reflexivity].
    destruct delta as [d|]; [|apply app_nil_r].
    cbn. unfold Stream.is_text_delta.
    destruct (delta_type d) as [ty|] eqn:Hty; [|apply app_nil_r].
    destruct (String.eqb_spec ty "text_delta") as [->|_]; [|apply app_nil_r].
    now destruct (Hd d eq_refl).
  - intros Hs Hcl. rewrite step_yield_frames by assumption.
    now rewrite Hs, Hcl.
Qed.

Lemma tool_use_suppressed_stop_forwarded_witness :
  let s := StreamStates.started default_timeouts 1000 (Some "sonnet") in
  Stream.frames
    (Stream.step default_timeouts 1001
       (EngineYield (StreamEvent (EvContentBlockStart 1 (Some "tool_use")))) s)
  = Stream.frames s
  ∧ Stream.frames
      (Stream.step default_timeouts 1001
         (EngineYield (StreamEvent (EvContentBlockDelta 1
            (Some (mkDelta (Some "input_json_delta") None))))) s)
    = Stream.frames s
  ∧ Stream.frames
      (Stream.step default_timeouts 1001
         (EngineYield (StreamEvent (EvContentBlockStop 1))) s)
    = (Stream.frames s ++ [ContentBlockStop 1])%list.
Proof.
  destruct (tool_use_suppressed_stop_forwarded default_timeouts 1000
              (demo_request None None) [] _ 1001 1 eq_refl) as (A & B & C).
  split; [exact A|]. split.
  - apply B. intros d [= <-]. discriminate.
  - apply C; reflexivity.
Defined.

Lemma stream_of_serve_seen cfg now req before t1 event between s :
  stream_of (serve cfg (before ++ (t1, EngineYield (StreamEvent event)) :: between)
               (handleMessages cfg now req)) = Some s →
  StreamStates.seen_or_over s.
Proof.
  intros H. apply stream_of_serve_app in H as (s0 & _ & ->).
  rewrite StreamFacts.run_cons.
  apply (StreamFacts.run_invariant cfg StreamStates.seen_or_over).
  - intros t i s1 s2 T. now apply (StreamFacts.transition_seen cfg t i).
  - apply StreamFacts.step_stream_event_seen.
Qed.

(** C4.  On the stream of a request: once a stream event was among the
    inputs, an assistant event writes no frame, whatever came in
    between; and while no stream event was among the inputs, [start] is
    consuming engine events and the output is open, an assistant event
    writes, for each of its text blocks, [content_block_start],
    [content_block_delta] with the whole text and [content_block_stop],
    all three with the position of the block among the text blocks of
    that turn as their index. *)
Theorem fallback_only_before_stream_events cfg now req :
  (∀ before t1 event between s t sid content,
     stream_of (serve cfg (before ++ (t1, EngineYield (StreamEvent event)) :: between)
                  (handleMessages cfg now req)) = Some s →
     Stream.frames (Stream.step cfg t (EngineYield (Assistant sid content)) s)
     = Stream.frames s)
  ∧ (∀ inputs s t sid content,
       stream_of (serve cfg inputs (handleMessages cfg now req)) = Some s →
       Forall (λ ti, ∀ event, ti.2 ≠ EngineYield (StreamEvent event)) inputs →
       Stream.suspended s = true → Stream.closed s = false →
       Stream.frames (Stream.step cfg t (EngineYield (Assistant sid content)) s)
       = (Stream.frames s ++ StreamStates.fallback_frames content)%list).
Proof.
  split.
  - intros before t1 event between s t sid content H.
    pose proof (stream_of_serve_seen _ _ _ _ _ _ _ _ H) as Hseen.
    apply stream_reachable in H as [W _].
    rewrite step_yield_frames by assumption.
    destruct Hseen as [-> | ->]; [|reflexivity].
    destruct (_ && _); [apply app_nil_r|reflexivity].
  - intros inputs s t sid content H Hnone Hs Hcl.
    pose proof H as H'. apply stream_reachable in H' as [W _].
    apply stream_of_serve in H as [model ->].
    rewrite step_yield_frames, Hs, Hcl by assumption. cbn [andb negb].
    rewrite StreamFacts.run_not_seen by assumption.
    change (Stream.hasStreamEvents (StreamStates.started cfg now model))
      with false.
    now rewrite StreamFacts.emitted_fallback.
Qed.

Lemma fallback_only_before_stream_events_witness :
  let turn := Assistant None [mkBlock "text" (Some "a"); mkBlock "tool_use" None;
                              mkBlock "text" (Some "b")] in
  let s0 := StreamStates.started default_timeouts 1000 (Some "sonnet") in
  let s1 := Stream.run default_timeouts
              [(1001, EngineYield (StreamEvent (EvContentBlockStop 0)))] s0 in
  let s2 := Stream.run default_timeouts [(1001, EngineYield (User true))] s0 in
  Stream.frames (Stream.step default_timeouts 1002 (EngineYield turn) s1)
  = Stream.frames s1
  ∧ Stream.frames (Stream.step default_timeouts 1002 (EngineYield turn) s2)
    = (Stream.frames s2
       ++ [ContentBlockStart 0;
           ContentBlockDelta 0 (mkDelta (Some "text_delta") (Some "a"));
           ContentBlockStop 0;
           ContentBlockStart 1;
           ContentBlockDelta 1 (mkDelta (Some "text_delta") (Some "b"));
           ContentBlockStop 1])%list.
Proof.
  intros turn s0 s1 s2.
  destruct (fallback_only_before_stream_events default_timeouts 1000
              (demo_request None None)) as [A B].
  split.
  - exact (A [] 1001 (EvContentBlockStop 0) [] s1 1002 None _ eq_refl).
  - refine (B [(1001, EngineYield (User true))] s2 1002 None _
              eq_refl _ eq_refl eq_refl).
    repeat constructor. discriminate.
Defined.




(** C5, as the specification states it, fails.  A failure whose message
    has "aborted by user" in it, but neither of the two texts the code
    looks for, is reported with its own message, not with the
    explanation; and a thrown value that is not an [Error] is never a
    [connection_error], whatever its text. *)
Lemma stream_error_frame_not_as_claimed :
  let h := handleMessages default_timeouts 1000 (demo_request None None) in
  let e1 := Js.Error "Error" "Request aborted by user" in
  let e2 := Js.NotError "socket reset" in
  (last (frames_of (serve default_timeouts [(1001, EngineThrow e1)] h))
   = Some (ErrorFrame "api_error" "Request aborted by user")
   ∧ claimed_error_frame e1 = ErrorFrame "api_error" abort_message
   ∧ last (frames_of (serve default_timeouts [(1001, EngineThrow e1)] h))
     ≠ Some (claimed_error_frame e1))
  ∧ (last (frames_of (serve default_timeouts [(1001, EngineThrow e2)] h))
     = Some (ErrorFrame "api_error" "socket reset")
     ∧ claimed_error_frame e2 = ErrorFrame "connection_error" "socket reset"
     ∧ last (frames_of (serve default_timeouts [(1001, EngineThrow e2)] h))
       ≠ Some (claimed_error_frame e2)).
Proof. repeat split; vm_compute; (reflexivity || discriminate). Qed.

(** C5, amended.  When the engine fails while [start] is consuming its
    events, the client is connected and the output is open, one error
    frame is written, by the first rule that matches: the message has
    "exited with code 1" or "exit code 1" in it: [authentication_error]
    with the fixed message; else it has "Claude Code process aborted" or
    "process aborted by user" in it: [api_error] with the explanation;
    else the thrown value is an [Error] whose message has "reset" or
    "ECONNRESET" in it or whose name is "AbortError":
    [connection_error] with the message; else [api_error] with the
    message. *)
Theorem stream_error_frame_classified cfg t e s :
  Stream.suspended s = true →
  Stream.clientDisconnected s = false →
  Stream.closed s = false →
  ∃ type message,
    Stream.frames (Stream.step cfg t (EngineThrow e) s)
    = (Stream.frames s ++ [ErrorFrame type message])%list
    ∧ (exit_code_1 e →
         type = "authentication_error" ∧ message = auth_message)
    ∧ (¬ exit_code_1 e → sdk_abort e →
         type = "api_error" ∧ message = abort_message)
    ∧ (¬ exit_code_1 e → ¬ sdk_abort e → connection_reset e →
         type = "connection_error" ∧ message = Js.errorMessage e)
    ∧ (¬ exit_code_1 e → ¬ sdk_abort e → ¬ connection_reset e →
         type = "api_error" ∧ message = Js.errorMessage e).
Proof.
  intros Hs Hcd Hcl.
  exists (classifyStreamError e).1, (classifyStreamError e).2. split.
  - unfold Stream.step, Stream.resume, Stream.throw. rewrite Hs.
    rewrite StreamFacts.fail_open by assumption. reflexivity.
  - destruct (classifyStreamError_cases e) as (A & B & C & D).
    repeat split; intros;
      first [rewrite A by assumption | rewrite B by assumption
            | rewrite C by assumption | rewrite D by assumption];
      reflexivity.
Qed.

Lemma stream_error_frame_classified_witness :
  let s := StreamStates.started default_timeouts 1000 (Some "sonnet") in
  let e := Js.Error "Error" "read ECONNRESET" in
  ∃ type message,
    Stream.frames (Stream.step default_timeouts 1001 (EngineThrow e) s)
    = (Stream.frames s ++ [ErrorFrame type message])%list
    ∧ (exit_code_1 e →
         type = "authentication_error" ∧ message = auth_message)
    ∧ (¬ exit_code_1 e → sdk_abort e →
         type = "api_error" ∧ message = abort_message)
    ∧ (¬ exit_code_1 e → ¬ sdk_abort e → connection_reset e →
         type = "connection_error" ∧ message = Js.errorMessage e)
    ∧ (¬ exit_code_1 e → ¬ sdk_abort e → ¬ connection_reset e →
         type = "api_error" ∧ message = Js.errorMessage e).
Proof.
  exact (stream_error_frame_classified default_timeouts 1001
           (Js.Error "Error" "read ECONNRESET")
           (StreamStates.started default_timeouts 1000 (Some "sonnet"))
           eq_refl eq_refl eq_refl).
Defined.

(** ** The buffered path *)

Lemma outerCatch_cases (e : Js.thrown) :
  (exit_code_1 e →
     outerCatch e = mkResponse 401 ∅ (ErrorJson "authentication_error" auth_message))
  ∧ (¬ exit_code_1 e →
       outerCatch e = mkResponse 500 ∅ (ErrorJson "api_error" (Js.errorMessage e))).
Proof.
  unfold outerCatch. pose proof (isExitCode1_iff e) as H.
  destruct (isExitCode1 e); split; intros; try reflexivity; exfalso;
    intuition congruence.
Qed.

(** C6, evaluated where the code departs from it.  A connection reset
    and an aborted engine process on the buffered path are answered as
    plain [api_error] with the raw message; the classifier of the
    streaming path makes them a [connection_error] and an [api_error]
    with the explanation. *)
Theorem buffered_failure_not_classified :
  let h := handleMessages default_timeouts 1000 (demo_request (Some false) None) in
  let reset := Js.Error "Error" "read ECONNRESET" in
  let aborted := Js.Error "Error" "Claude Code process aborted by user" in
  (response_of (serve default_timeouts [(1001, EngineThrow reset)] h)
   = Some (mkResponse 500 ∅ (ErrorJson "api_error" "read ECONNRESET"))
   ∧ classifyStreamError reset = ("connection_error", "read ECONNRESET"))
  ∧ (response_of (serve default_timeouts [(1001, EngineThrow aborted)] h)
     = Some (mkResponse 500 ∅
               (ErrorJson "api_error" "Claude Code process aborted by user"))
     ∧ classifyStreamError aborted = ("api_error", abort_message)).
Proof. repeat split; vm_compute; reflexivity. Qed.

Lemma buffered_step_not_aborted model deadline t i s :
  t < deadline →
  Buffered.aborted s = None →
  Buffered.timeout s = None ∨ Buffered.timeout s = Some deadline →
  Buffered.aborted (Buffered.step model t i s) = None
  ∧ (Buffered.timeout (Buffered.step model t i s) = None
     ∨ Buffered.timeout (Buffered.step model t i s) = Some deadline).
Proof.
  intros Hlt Ha Ht. destruct s as [fc sid tm ab r]. cbn in Ha, Ht. subst ab.
  unfold Buffered.step, Buffered.answered.
  destruct i as [m| |e| |[| |]]; cbn; auto.
  - destruct r; [auto|]. destruct m; cbn; auto.
  - destruct r; cbn; auto.
  - destruct r; cbn; auto.
  - destruct Ht as [-> | ->]; cbn; [auto|].
    destruct (Z.leb_spec deadline t); [lia|cbn; auto].
Qed.

(** C10, as the specification states it, fails for a total timeout that
    [setTimeout] does not take as it is.  With 3000000000 ms, some 34.7
    days, the timer of the buffered path is due one millisecond after
    the request, and its callback triggers the abort signal long before
    the total timeout has elapsed. *)
Lemma buffered_timeout_overflows :
  let cfg := mkTimeouts 3000000000 900000 in
  ∃ q model b,
    serve cfg [(1001, TimerDue TotalTimer)]
      (handleMessages cfg 1000 (demo_request (Some false) None))
    = Buffering q model b
    ∧ Buffered.aborted b = Some "Request timeout"
    ∧ 1001 < 1000 + streamTimeout cfg.
Proof.
  intros cfg. eexists _, _, _. split; [vm_compute; reflexivity|].
  split; [reflexivity|]. cbn. lia.
Qed.

(** C10, amended.  On the buffered path one timer is set, due when the
    total timeout has elapsed if that is a delay [setTimeout] takes as
    it is, from 1 to 2147483647 ms; a callback of an inactivity timer
    has nothing to run; and for a total timeout of at most 2147483647 ms,
    whatever the inputs and the gaps between them, the abort signal is
    not triggered while every input comes before the total timeout has
    elapsed.  On the streaming path, for an inactivity timeout of at
    least 1 ms, a gap of the inactivity timeout after an engine event is
    enough for the inactivity callback to trigger the abort signal. *)
Theorem buffered_path_has_no_inactivity_timer cfg now req q model b :
  handleMessages cfg now req = Buffering q model b →
  (in_timer_range (streamTimeout cfg) →
   Buffered.timeout b = Some (now + streamTimeout cfg))
  ∧ (∀ t s, Buffered.step model t (TimerDue InactivityTimer) s = s)
  ∧ (streamTimeout cfg ≤ 2147483647 →
     ∀ inputs,
       Forall (λ ti, ti.1 < now + streamTimeout cfg) inputs →
       Buffered.aborted (Buffered.run model inputs b) = None)
  ∧ (1 ≤ inactivityTimeout cfg →
     ∀ req' inputs s t m t',
       stream_of (serve cfg inputs (handleMessages cfg now req')) = Some s →
       Stream.suspended s = true → Stream.closed s = false →
       t + inactivityTimeout cfg ≤ t' →
       Stream.aborted
         (Stream.step cfg t' (TimerDue InactivityTimer)
            (Stream.step cfg t (EngineYield m) s))
       = Some "Stream inactivity timeout").
Proof.
  intros H.
  assert (b = Buffered.start cfg now) as ->.
  { unfold handleMessages in H. destruct (json req); [|discriminate].
    destruct (negb _); [|discriminate]. now injection H. }
  split.
  { intros Hrange. cbn. now rewrite timer_delay_in_range. }
  split; [reflexivity|]. split.
  - intros Hmax inputs Hin.
    pose proof (timer_delay_ge _ Hmax) as Hge.
    assert (Forall (λ ti, ti.1 < now + timer_delay (streamTimeout cfg)) inputs)
      as Hin'.
    { eapply Forall_impl; [exact Hin|]. cbn. intros ti Hlt. lia. }
    clear Hin.
    assert (∀ s, Buffered.aborted s = None →
                 (Buffered.timeout s = None
                  ∨ Buffered.timeout s
                    = Some (now + timer_delay (streamTimeout cfg))) →
                 Buffered.aborted (Buffered.run model inputs s) = None) as G.
    { induction inputs as [|[t i] inputs IH]; intros s Ha Ht; [exact Ha|].
      apply Forall_cons in Hin' as [Hlt Hin']. cbn in Hlt.
      change (Buffered.run model ((t, i) :: inputs) s)
        with (Buffered.run model inputs (Buffered.step model t i s)).
      destruct (buffered_step_not_aborted model _ t i s Hlt Ha Ht).
      now apply IH. }
    apply G; [reflexivity|now right].
  - intros Hmin req' inputs s t m t' Hs Hsu Hcl Hgap.
    pose proof (timer_delay_le _ Hmin) as Hle.
    apply stream_reachable in Hs as [W _].
    assert (Stream.clientDisconnected s = false) as Hcd.
    { destruct (Stream.clientDisconnected s) eqn:Hcd; [|reflexivity].
      pose proof (StreamStates.wf_cancel_closes s W Hcd). congruence. }
    pose proof (StreamStates.wf_open s W Hcl) as Hab.
    rewrite StreamFacts.step_yield_open by assumption.
    destruct s; cbn in *. subst.
    destruct (Z.leb_spec (t + timer_delay (inactivityTimeout cfg)) t');
      [reflexivity|lia].
Qed.

Lemma buffered_path_has_no_inactivity_timer_witness :
  let turn := EngineYield (Assistant None [mkBlock "text" (Some "a")]) in
  Buffered.aborted
    (Buffered.run (Some "sonnet")
       [(1001, turn); (2001001, TimerDue InactivityTimer); (2001002, turn);
        (2001003, EngineDone)]
       (Buffered.start default_timeouts 1000)) = None
  ∧ Stream.aborted
      (Stream.step default_timeouts 901001 (TimerDue InactivityTimer)
         (Stream.step default_timeouts 1001 turn
            (StreamStates.started default_timeouts 1000 (Some "sonnet"))))
    = Some "Stream inactivity timeout".
Proof.
  intros turn.
  destruct (buffered_path_has_no_inactivity_timer default_timeouts 1000
              (demo_request (Some false) None) _ _ _ eq_refl)
    as (_ & _ & A & B).
  split.
  - apply A; [cbn; lia|]. repeat constructor.
  - apply (B ltac:(cbn; lia) (demo_request None None) []); reflexivity.
Defined.

(** ** Session identifiers *)

(** On the streaming path the identifier that was captured stays. *)
Lemma transition_session_kept cfg now i s s' :
  StreamStates.transition cfg now i s s' →
  Js.truthy (Stream.currentSessionId s) = true →
  Stream.currentSessionId s' = Stream.currentSessionId s.
Proof.
  intros T H. destruct T as [| ? m ? | ? m ? | | | | ? m ? | | | |];
    try destruct m; destruct s; cbn in *; try reflexivity;
    rewrite H; cbn; now rewrite andb_false_r.
Qed.

Lemma run_session_kept cfg inputs s :
  Js.truthy (Stream.currentSessionId s) = true →
  Stream.currentSessionId (Stream.run cfg inputs s) = Stream.currentSessionId s.
Proof.
  intros H.
  apply (StreamFacts.run_invariant cfg
           (λ s', Stream.currentSessionId s' = Stream.currentSessionId s));
    [|reflexivity].
  intros t i s1 s2 T E. rewrite <- E.
  apply (transition_session_kept cfg t i); [exact T|]. now rewrite E.
Qed.

(** On the buffered path every assistant event with a session
    identifier replaces the one held. *)
Lemma consume_overwrites sid content s :
  Js.truthy (Some sid) = true →
  Buffered.currentSessionId (Buffered.consume (Assistant (Some sid) content) s)
  = Some sid.
Proof. intros H. cbn [Buffered.consume Buffered.currentSessionId]. now rewrite H. Qed.

(** C8, evaluated where the code departs from it.  On the buffered path
    a later assistant event with another session identifier replaces the
    one captured first, and the response header carries the later one;
    on the streaming path the same events leave the first one in
    place. *)
Theorem buffered_session_id_overwritten :
  let turns := [(1001, EngineYield (Assistant (Some "first") []));
                (1002, EngineYield (Assistant (Some "second") []));
                (1003, EngineDone)] in
  session_id_header
    (serve default_timeouts turns
       (handleMessages default_timeouts 1000 (demo_request (Some false) None)))
  = Some "second"
  ∧ Stream.currentSessionId
      (Stream.run default_timeouts turns
         (StreamStates.started default_timeouts 1000 (Some "sonnet")))
    = Some "first".
Proof. split; vm_compute; reflexivity. Qed.

(** The header of a streamed response is fixed when the response is
    built, before any engine event is consumed: it is the header of the
    request, or a synthesized identifier. *)
Lemma streaming_header_fixed cfg now req inputs s :
  stream_of (serve cfg inputs (handleMessages cfg now req)) = Some s →
  session_id_header (serve cfg inputs (handleMessages cfg now req))
  = Some (Js.or_else (session_header req) ("session_" ++ pretty now)).
Proof.
  unfold handleMessages.
  destruct (json req) as [body|e]; [|now rewrite serve_Failed].
  destruct (negb (default true (body_stream body))).
  - now rewrite serve_Buffering.
  - rewrite serve_Streaming. intros _. unfold session_id_header. cbn.
    unfold session_header_name. simplify_map_eq. reflexivity.
Qed.

(** A response of the outer catch block has no session header. *)
Lemma error_response_has_no_session_header (e : Js.thrown) :
  headers (outerCatch e) !! session_header_name = None.
Proof. reflexivity. Qed.

(** C1, evaluated where the code departs from it.  The engine reports
    the session "abc" on a streamed request without session header: the
    stream captures it, and the response header is the synthesized
    identifier.  With the header "resume-me" on a buffered request and an
    engine that reports no session, the header is synthesized as well;
    and the error response of a failed buffered request has no session
    header. *)
Theorem session_header_not_as_resolved :
  let turn := EngineYield (Assistant (Some "abc") [mkBlock "text" (Some "hello")]) in
  let silent := EngineYield (Assistant None [mkBlock "text" (Some "hello")]) in
  let streamed :=
    serve default_timeouts [(1001, turn); (1002, EngineDone)]
      (handleMessages default_timeouts 1000 (demo_request None None)) in
  let buffered :=
    serve default_timeouts [(1001, silent); (1002, EngineDone)]
      (handleMessages default_timeouts 1000
         (demo_request (Some false) (Some "resume-me"))) in
  let failed :=
    serve default_timeouts [(1001, EngineThrow (Js.Error "Error" "boom"))]
      (handleMessages default_timeouts 1000
         (demo_request (Some false) (Some "resume-me"))) in
  (Stream.currentSessionId <$> stream_of streamed = Some (Some "abc")
   ∧ session_id_header streamed = Some "session_1000")
  ∧ session_id_header buffered = Some "session_1002"
  ∧ (status <$> response_of failed = Some 500
     ∧ session_id_header failed = None).
Proof. repeat split; vm_compute; reflexivity. Qed.

(** ** Scenarios *)

Example model_mapper_examples :
  mapModelToClaudeModel "claude-opus-4" = "opus"
  ∧ mapModelToClaudeModel "claude-3-haiku" = "haiku"
  ∧ mapModelToClaudeModel "claude-sonnet-4" = "sonnet"
  ∧ mapModelToClaudeModel "" = "sonnet".
Proof. repeat split; reflexivity. Qed.

Example buffered_hello :
  response_of
    (serve default_timeouts
       [(1001, EngineYield (Assistant (Some "abc") [mkBlock "text" (Some "hello")]));
        (1002, EngineDone)]
       (handleMessages default_timeouts 1000 (demo_request (Some false) None)))
  = Some (mkResponse 200 {[ session_header_name := "abc" ]}
            (MessageJson "msg_1002" "hello" (Some "sonnet"))).
Proof. vm_compute. reflexivity. Qed.

Example streamed_hello :
  frames_of
    (serve default_timeouts
       [(1001, EngineYield (StreamEvent (EvContentBlockStart 0 (Some "text"))));
        (1002, EngineYield (StreamEvent (EvContentBlockDelta 0
                 (Some (mkDelta (Some "text_delta") (Some "hello"))))));
        (1003, EngineYield (StreamEvent (EvContentBlockStop 0)));
        (1004, EngineYield (Assistant (Some "abc") [mkBlock "text" (Some "hello")]));
        (1005, EngineYield Result);
        (1006, EngineDone)]
       (handleMessages default_timeouts 1000 (demo_request None None)))
  = [MessageStart "msg_1000" (Some "sonnet"); ContentBlockStart 0;
     ContentBlockStart 0;
     ContentBlockDelta 0 (mkDelta (Some "text_delta") (Some "hello"));
     ContentBlockStop 0;
     ContentBlockStop 0; MessageDelta "end_turn"; MessageStop].
Proof. vm_compute. reflexivity. Qed.

Example total_timeout_closes_the_output :
  let s := Stream.run default_timeouts
             [(1001, EngineYield (StreamEvent (EvContentBlockStart 0 (Some "text"))));
              (3601000, TimerDue TotalTimer);
              (3601001, EngineYield (StreamEvent (EvContentBlockStop 0)));
              (3601002, EngineThrow (Js.Error "AbortError" "Claude Code process aborted by user"))]
             (StreamStates.started default_timeouts 1000 (Some "sonnet")) in
  Stream.aborted s = Some "Stream timeout exceeded"
  ∧ Stream.frames s
    = [MessageStart "msg_1000" (Some "sonnet"); ContentBlockStart 0;
       ContentBlockStart 0].
Proof. split; vm_compute; reflexivity. Qed.

(** A cancel that reaches [cancel()] after [start] has ended, or after
    a timeout has closed the output, sets [clientDisconnected] and leaves
    the frames and the abort signal as they are. *)
Example late_cancel :
  let done := Stream.run default_timeouts
                [(1001, EngineDone); (1002, ClientCancel)]
                (StreamStates.started default_timeouts 1000 (Some "sonnet")) in
  let timed_out := Stream.run default_timeouts
                     [(901000, TimerDue InactivityTimer); (901001, ClientCancel)]
                     (StreamStates.started default_timeouts 1000 (Some "sonnet")) in
  (Stream.clientDisconnected done = true
   ∧ Stream.frames done
     = [MessageStart "msg_1000" (Some "sonnet"); ContentBlockStart 0;
        ContentBlockStop 0; MessageDelta "end_turn"; MessageStop])
  ∧ (Stream.clientDisconnected timed_out = true
     ∧ Stream.aborted timed_out = Some "Stream inactivity timeout"
     ∧ Stream.timeoutId timed_out = None).
Proof. repeat split; vm_compute; reflexivity. Qed.

(** * Further properties *)

(** ** [parseInt] and the timeouts *)

Lemma digit_value_pretty (d : N) :
  (d < 10)%N → digit_value (pretty_N_char d) = Some (Z.of_N d).
Proof.
  intros H.
  assert (d = 0 ∨ d = 1 ∨ d = 2 ∨ d = 3 ∨ d = 4 ∨ d = 5 ∨ d = 6 ∨ d = 7
          ∨ d = 8 ∨ d = 9)%N as Hd by lia.
  repeat (destruct Hd as [-> | Hd]; [reflexivity|]). now subst.
Qed.

Lemma pretty_char_plain (d : N) :
  (d < 10)%N →
  is_whitespace (pretty_N_char d) = false
  ∧ Ascii.eqb (pretty_N_char d) "-" = false
  ∧ Ascii.eqb (pretty_N_char d) "+" = false.
Proof.
  intros H.
  assert (d = 0 ∨ d = 1 ∨ d = 2 ∨ d = 3 ∨ d = 4 ∨ d = 5 ∨ d = 6 ∨ d = 7
          ∨ d = 8 ∨ d = 9)%N as Hd by lia.
  repeat (destruct Hd as [-> | Hd]; [repeat split; reflexivity|]).
  subst. repeat split; reflexivity.
Qed.

Lemma pretty_N_go_app (x : N) (s r : string) :
  pretty_N_go x s ++ r = pretty_N_go x (s ++ r).
Proof.
  revert s. induction (N.lt_wf_0 x) as [x _ IH]; intros s.
  destruct (decide (x = 0)%N) as [->|Hx]; [now rewrite !pretty_N_go_0|].
  rewrite (pretty_N_go_step x s), (pretty_N_go_step x (s ++ r)) by lia.
  rewrite IH by (apply N.div_lt; lia). reflexivity.
Qed.

(** The digits of a positive number are read back after any digits read
    before them. *)
Lemma digits_from_pretty (x : N) :
  (0 < x)%N →
  ∃ k : Z, 0 ≤ k ∧ ∀ acc seen s,
    digits_from acc seen (pretty_N_go x s)
    = digits_from (acc * 10 ^ k + Z.of_N x) true s.
Proof.
  induction (N.lt_wf_0 x) as [x _ IH]. intros Hx.
  assert (x `mod` 10 < 10)%N as Hd by (apply N.mod_lt; lia).
  destruct (decide (x `div` 10 = 0)%N) as [Hq|Hq].
  - exists 1. split; [lia|]. intros acc seen s.
    rewrite pretty_N_go_step, Hq, pretty_N_go_0 by assumption.
    cbn [digits_from]. rewrite digit_value_pretty by assumption.
    assert (acc * 10 ^ 1 + Z.of_N x = acc * 10 + Z.of_N (x `mod` 10)) as ->;
      [|reflexivity].
    assert (10 ≠ 0)%N as H10 by discriminate.
    pose proof (N.div_mod x 10 H10) as Ex. rewrite Hq in Ex. lia.
  - assert (x `div` 10 < x)%N as Hlt by (apply N.div_lt; lia).
    assert (0 < x `div` 10)%N as Hpos by now apply N.neq_0_lt_0.
    destruct (IH _ Hlt Hpos) as (k & Hk & E).
    exists (k + 1). split; [lia|]. intros acc seen s.
    rewrite pretty_N_go_step, E by assumption.
    cbn [digits_from]. rewrite digit_value_pretty by assumption.
    assert (acc * 10 ^ (k + 1) + Z.of_N x
            = (acc * 10 ^ k + Z.of_N (x `div` 10)) * 10 + Z.of_N (x `mod` 10))
      as ->; [|reflexivity].
    rewrite Z.pow_add_r, Z.pow_1_r by lia.
    assert (10 ≠ 0)%N as H10 by discriminate.
    pose proof (N.div_mod x 10 H10) as Ex. lia.
Qed.

Lemma pretty_N_go_head (x : N) (s : string) :
  (0 < x)%N →
  ∃ d rest, (d < 10)%N ∧ pretty_N_go x s = String (pretty_N_char d) rest.
Proof.
  revert s. induction (N.lt_wf_0 x) as [x _ IH]. intros s Hx.
  rewrite pretty_N_go_step by assumption.
  destruct (decide (x `div` 10 = 0)%N) as [Hq|Hq].
  - rewrite Hq, pretty_N_go_0. eexists _, _. split; [|reflexivity].
    apply N.mod_lt. lia.
  - apply IH; [apply N.div_lt; lia|now apply N.neq_0_lt_0].
Qed.

Lemma digits_from_stop acc (s : string) :
  starts_with_digit s = false → digits_from acc true s = Some acc.
Proof.
  destruct s as [|c s]; [reflexivity|]. cbn.
  now destruct (digit_value c).
Qed.

Lemma parseInt10_N (x : N) (rest : string) :
  (0 < x)%N → starts_with_digit rest = false →
  parseInt10 (pretty x ++ rest) = Some (Z.of_N x)
  ∧ parseInt10 (String "-" (pretty x ++ rest)) = Some (- Z.of_N x).
Proof.
  intros Hx Hrest.
  unfold pretty, pretty_N. destruct (decide (x = 0)%N) as [->|_]; [lia|].
  rewrite pretty_N_go_app, string_app_nil_l.
  destruct (digits_from_pretty x Hx) as (k & _ & E).
  destruct (pretty_N_go_head x rest Hx) as (d & tail & Hd & Eh).
  destruct (pretty_char_plain d Hd) as (Hw & Hm & Hp).
  split.
  - unfold parseInt10. rewrite Eh. cbn [trimStart]. rewrite Hw, Hm, Hp.
    rewrite <- Eh, E. cbn. now apply digits_from_stop.
  - unfold parseInt10. cbn [trimStart].
    change (is_whitespace "-") with false. cbn match.
    change (Ascii.eqb "-" "-") with true. cbn match.
    rewrite E. cbn. now rewrite digits_from_stop.
Qed.

Lemma pretty_Z_cases (n : Z) :
  n = 0 ∧ pretty n = "0"
  ∨ (∃ x, (0 < x)%N ∧ n = Z.of_N x ∧ pretty n = pretty x)
  ∨ (∃ x, (0 < x)%N ∧ n = - Z.of_N x ∧ pretty n = String "-" (pretty x)).
Proof.
  destruct n as [|q|q].
  - left. split; reflexivity.
  - right. left. exists (Npos q). repeat split; reflexivity || lia.
  - right. right. exists (Npos q). repeat split; reflexivity || lia.
Qed.

Lemma parseInt10_pretty (n : Z) (rest : string) :
  starts_with_digit rest = false →
  parseInt10 (pretty n ++ rest) = Some n.
Proof.
  intros Hrest.
  destruct (pretty_Z_cases n) as [[-> ->]|[(x & Hx & -> & ->)|(x & Hx & -> & ->)]].
  - rewrite string_app_cons, string_app_nil_l.
    unfold parseInt10. cbn [trimStart].
    change (is_whitespace "0") with false. cbn match.
    change (Ascii.eqb "0" "-") with false. change (Ascii.eqb "0" "+") with false.
    cbn match. cbn [digits_from]. change (digit_value "0") with (Some 0).
    cbn match. now rewrite digits_from_stop.
  - now apply parseInt10_N.
  - rewrite string_app_cons. now apply parseInt10_N.
Qed.

(** X1.  [parseInt(s, 10)] reads back the decimal text of an integer a
    JavaScript number holds exactly, and ignores whatever follows the
    digits: the text of [n] followed by [rest], where [rest] does not
    start with a digit, is read as [n]. *)
Theorem parseInt10_reads_decimal (n : Z) (rest : string) :
  Z.abs n ≤ 2 ^ 53 →
  starts_with_digit rest = false →
  parseInt10 (pretty n ++ rest) = Some n.
Proof. intros _. apply parseInt10_pretty. Qed.

Lemma parseInt10_reads_decimal_witness :
  parseInt10 "7200000ms" = Some 7200000.
Proof.
  exact (parseInt10_reads_decimal 7200000 "ms" ltac:(vm_compute; discriminate) eq_refl).
Defined.

Lemma pretty_Z_not_empty (n : Z) : pretty n ≠ "".
Proof.
  assert (∀ x, (0 < x)%N → pretty x ≠ "") as HN.
  { intros x Hx. unfold pretty, pretty_N.
    destruct (decide (x = 0)%N); [discriminate|].
    destruct (pretty_N_go_head x "" Hx) as (d & tail & _ & ->). discriminate. }
  destruct (pretty_Z_cases n) as [[_ ->]|[(x & Hx & _ & ->)|(x & Hx & _ & ->)]];
    [discriminate|now apply HN|discriminate].
Qed.

Lemma or_else_given (v d : string) : v ≠ "" → Js.or_else (Some v) d = v.
Proof.
  intros H. unfold Js.or_else. now destruct (String.eqb_spec v "").
Qed.

Lemma or_else_falsy (v : option string) (d : string) :
  Js.truthy v = false → Js.or_else v d = d.
Proof.
  unfold Js.truthy, Js.or_else. destruct v as [v|]; [|reflexivity].
  now destruct (String.eqb v "").
Qed.

(** X3.  The timeouts of the environment: a variable set to the decimal
    text of an integer gives that integer, and a variable that is unset
    or empty gives the default, 3600000 for the total timeout and 900000
    for the inactivity timeout; with both unset or empty the timeouts are
    [default_timeouts]. *)
Theorem timeouts_of_env_read (env : ProcessEnv) :
  (∀ n, Z.abs n ≤ 2 ^ 53 →
        CLAUDE_PROXY_TIMEOUT_MS env = Some (pretty n) → timeoutMs env = Some n)
  ∧ (∀ n, Z.abs n ≤ 2 ^ 53 →
          CLAUDE_PROXY_INACTIVITY_MS env = Some (pretty n) →
          inactivityMs env = Some n)
  ∧ (Js.truthy (CLAUDE_PROXY_TIMEOUT_MS env) = false →
     timeoutMs env = Some 3600000)
  ∧ (Js.truthy (CLAUDE_PROXY_INACTIVITY_MS env) = false →
     inactivityMs env = Some 900000)
  ∧ (Js.truthy (CLAUDE_PROXY_TIMEOUT_MS env) = false →
     Js.truthy (CLAUDE_PROXY_INACTIVITY_MS env) = false →
     timeouts_of_env env = Some default_timeouts).
Proof.
  unfold timeouts_of_env, timeoutMs, inactivityMs.
  repeat split.
  - intros n Hn ->. rewrite or_else_given by apply pretty_Z_not_empty.
    rewrite <- (string_app_nil_r (pretty n)).
    now apply parseInt10_pretty.
  - intros n Hn ->. rewrite or_else_given by apply pretty_Z_not_empty.
    rewrite <- (string_app_nil_r (pretty n)).
    now apply parseInt10_pretty.
  - intros H. now rewrite or_else_falsy.
  - intros H. now rewrite or_else_falsy.
  - intros H1 H2. now rewrite !or_else_falsy.
Qed.

Lemma timeouts_of_env_read_witness :
  timeoutMs (mkEnv None None None (Some "7200000") (Some "")) = Some 7200000
  ∧ inactivityMs (mkEnv None None None (Some "7200000") (Some "")) = Some 900000.
Proof.
  destruct (timeouts_of_env_read (mkEnv None None None (Some "7200000") (Some "")))
    as (A & _ & _ & B & _).
  split.
  - apply (A 7200000); [vm_compute; discriminate|reflexivity].
  - apply B. reflexivity.
Defined.

(** ** [trim] and [resolveClaudeExecutable] *)

Lemma trimStart_all_ws (a : string) : all_whitespace a = true → trimStart a = "".
Proof.
  induction a as [|c a IH]; [reflexivity|]. cbn. intros H.
  apply andb_true_iff in H as [-> H]. now apply IH.
Qed.

Lemma trimEnd_all_ws (b : string) : all_whitespace b = true → trimEnd b = "".
Proof.
  induction b as [|c b IH]; [reflexivity|]. cbn. intros H.
  apply andb_true_iff in H as [-> H]. now rewrite IH.
Qed.

Lemma trimStart_ws (a s : string) :
  all_whitespace a = true → trimStart (a ++ s) = trimStart s.
Proof.
  induction a as [|c a IH]; [now rewrite string_app_nil_l|].
  cbn. intros H. apply andb_true_iff in H as [Hc H].
  rewrite string_app_cons. cbn. rewrite Hc. now apply IH.
Qed.

Lemma trimEnd_ws (s b : string) :
  all_whitespace b = true → trimEnd (s ++ b) = trimEnd s.
Proof.
  intros H. induction s as [|c s IH].
  - rewrite string_app_nil_l. now apply trimEnd_all_ws.
  - rewrite string_app_cons. cbn. now rewrite IH.
Qed.

Lemma trim_ws (a s b : string) :
  all_whitespace a = true → all_whitespace b = true →
  trim (a ++ s ++ b) = trim s.
Proof.
  intros Ha Hb. unfold trim. rewrite trimStart_ws by assumption.
  induction s as [|c s IH].
  - rewrite string_app_nil_l. now rewrite trimStart_all_ws.
  - rewrite string_app_cons. cbn. destruct (is_whitespace c); [exact IH|].
    rewrite <- string_app_cons. now apply trimEnd_ws.
Qed.

(** X4.  [resolveClaudeExecutable] returns only a path that
    [existsSync] accepts; and when it throws, it throws the one error
    with the installation hint, the [cli.js] beside the SDK module does
    not exist and the trimmed output of [which claude] is empty or does
    not exist. *)
Theorem resolveClaudeExecutable_sound (m : Machine) :
  match resolveClaudeExecutable m with
  | inl p => existsSync m p = true
  | inr e =>
      e = not_found
      ∧ match sdkPath m with
        | Some p => existsSync m (join m (dirname m p) "cli.js") = false
        | None => True
        end
      ∧ match which_claude m with
        | Some out => trim out = "" ∨ existsSync m (trim out) = false
        | None => True
        end
  end.
Proof.
  unfold resolveClaudeExecutable, sdkCliJs, claudePath, Js.truthy.
  destruct (sdkPath m) as [p|].
  - destruct (existsSync m (join m (dirname m p) "cli.js")) eqn:E; [exact E|].
    destruct (which_claude m) as [out|]; [|now repeat split].
    destruct (String.eqb_spec (trim out) ""); cbn.
    + repeat split. now left.
    + destruct (existsSync m (trim out)) eqn:E'; [exact E'|].
      repeat split. now right.
  - destruct (which_claude m) as [out|]; [|now repeat split].
    destruct (String.eqb_spec (trim out) ""); cbn.
    + repeat split. now left.
    + destruct (existsSync m (trim out)) eqn:E'; [exact E'|].
      repeat split. now right.
Qed.

(** X5.  The white space around the output of [which claude] (the line
    feed it ends with) does not count: when there is no [cli.js] beside
    the SDK module and the output is the path [p] with ASCII white space
    around it, [p] being an ASCII string that is not empty and has no
    white space at either end, the function returns [p] if it exists and
    throws otherwise. *)
Theorem resolveClaudeExecutable_trims (m : Machine) (a p b : string) :
  all_whitespace a = true → all_whitespace b = true →
  is_ascii p = true → trim p = p → p ≠ "" →
  sdkCliJs m = None →
  resolveClaudeExecutable (with_which (Some (a ++ p ++ b)) m)
  = if existsSync m p then inl p else inr not_found.
Proof.
  intros Ha Hb _ Hp Hne Hsdk.
  unfold resolveClaudeExecutable.
  replace (sdkCliJs (with_which (Some (a ++ p ++ b)) m)) with (sdkCliJs m)
    by reflexivity.
  rewrite Hsdk. unfold claudePath. cbn [which_claude with_which existsSync].
  rewrite trim_ws, Hp by assumption. unfold Js.truthy.
  destruct (String.eqb_spec p ""); [contradiction|]. cbn.
  now destruct (existsSync m p).
Qed.

Lemma resolveClaudeExecutable_trims_witness :
  resolveClaudeExecutable
    (mkMachine None (λ p, p) (λ a b, a ++ "/" ++ b)
       (String.eqb "/usr/bin/claude")
       (Some (" " ++ "/usr/bin/claude" ++ String "010"%char EmptyString)))
  = inl "/usr/bin/claude".
Proof.
  exact (resolveClaudeExecutable_trims
           (mkMachine None (λ p, p) (λ a b, a ++ "/" ++ b)
              (String.eqb "/usr/bin/claude") None)
           " " "/usr/bin/claude" (String "010"%char EmptyString)
           eq_refl eq_refl eq_refl eq_refl ltac:(discriminate) eq_refl).
Defined.

(** ** [stderrHandler] *)

Lemma includes_aborted (data : string) :
  Js.includes data "aborted" = true → Js.includes data "abort" = true.
Proof.
  rewrite !includes_true_iff. intros (before & after & ->).
  exists before, ("ed" ++ after). reflexivity.
Qed.

Lemma stderr_all_from (debug : bool) (chunks : list string) (d : Diagnostics) :
  stderrMessages (stderr_all debug chunks d) = (stderrMessages d ++ chunks)%list
  ∧ ∃ shown logged,
      printed (stderr_all debug chunks d) = (printed d ++ shown)%list
      ∧ abort_detected (stderr_all debug chunks d) = (abort_detected d ++ logged)%list
      ∧ logged `sublist_of` shown ∧ shown `sublist_of` chunks
      ∧ (debug = true → shown = chunks).
Proof.
  revert d. induction chunks as [|data chunks IH]; intros d.
  - split; [now rewrite app_nil_r|]. exists [], [].
    rewrite !app_nil_r. repeat split; reflexivity.
  - unfold stderr_all. cbn [fold_left].
    destruct (IH (stderrHandler debug data d))
      as (Hm & shown & logged & Hp & Ha & Hls & Hsc & Hd).
    unfold stderr_all in Hm, Hp, Ha. rewrite Hm, Hp, Ha. cbn.
    split; [now rewrite <- app_assoc|].
    destruct (Js.includes data "aborted") eqn:Eab.
    + rewrite (includes_aborted _ Eab), !orb_true_r.
      exists (data :: shown), (data :: logged).
      rewrite <- !app_assoc. repeat split.
      * now apply sublist_skip.
      * now apply sublist_skip.
      * intros E. now rewrite (Hd E).
    + destruct (debug || Js.includes data "error" || Js.includes data "failed"
                || Js.includes data "abort") eqn:Epr.
      * exists (data :: shown), logged.
        rewrite <- !app_assoc. repeat split.
        -- now apply sublist_cons.
        -- now apply sublist_skip.
        -- intros E. now rewrite (Hd E).
      * exists shown, logged. repeat split; try assumption.
        -- now apply sublist_cons.
        -- intros E. rewrite E in Epr. discriminate.
Qed.

(** X6.  [stderrHandler] over the chunks the engine writes: the buffer
    [stderrMessages] holds all of them in order; what is printed is a
    selection of them in order, and everything when [debug] is set; and
    every chunk logged as an abort (it contains "aborted") is printed as
    well, in the same order. *)
Theorem stderrHandler_collects (debug : bool) (chunks : list string) :
  stderrMessages (stderr_all debug chunks no_diagnostics) = chunks
  ∧ printed (stderr_all debug chunks no_diagnostics) `sublist_of` chunks
  ∧ abort_detected (stderr_all debug chunks no_diagnostics)
      `sublist_of` printed (stderr_all debug chunks no_diagnostics)
  ∧ printed (stderr_all true chunks no_diagnostics) = chunks.
Proof.
  destruct (stderr_all_from debug chunks no_diagnostics)
    as (Hm & shown & logged & Hp & Ha & Hls & Hsc & _).
  destruct (stderr_all_from true chunks no_diagnostics)
    as (_ & shown' & _ & Hp' & _ & _ & _ & Hd).
  rewrite Hm, Hp, Ha, Hp', (Hd eq_refl). cbn. auto.
Qed.

(** ** The configuration *)

(** X7.  The configuration [createProxyServer] returns is a fixed point
    of the merge with the defaults: passed to [createProxyServer] again,
    under any environment and working directory, it comes back as it
    is. *)
Theorem finalConfig_fixed_point (env env' : ProcessEnv) (cwd cwd' : string)
    (config : PartialConfig) :
  finalConfig env' cwd' (as_partial (finalConfig env cwd config))
  = finalConfig env cwd config.
Proof.
  unfold finalConfig, as_partial. cbn.
  now destruct (given_workingDirectory config).
Qed.

(** ** [mapModelToClaudeModel] *)

(** X8.  [mapModelToClaudeModel] gives "opus" exactly for the names
    that contain "opus", "haiku" exactly for those that contain "haiku"
    and not "opus", and "sonnet" exactly for the others; it maps its
    own results to themselves. *)
Theorem mapModelToClaudeModel_tiers (model : string) :
  (mapModelToClaudeModel model = "opus" ↔ occurs_in "opus" model)
  ∧ (mapModelToClaudeModel model = "haiku"
     ↔ ¬ occurs_in "opus" model ∧ occurs_in "haiku" model)
  ∧ (mapModelToClaudeModel model = "sonnet"
     ↔ ¬ occurs_in "opus" model ∧ ¬ occurs_in "haiku" model)
  ∧ mapModelToClaudeModel (mapModelToClaudeModel model)
    = mapModelToClaudeModel model.
Proof.
  assert (mapModelToClaudeModel model
          = if Js.includes model "opus" then "opus"
            else if Js.includes model "haiku" then "haiku" else "sonnet") as ->
    by reflexivity.
  rewrite <- !includes_true_iff.
  destruct (Js.includes model "opus"), (Js.includes model "haiku");
    (split; [|split; [|split]]); try reflexivity; intuition discriminate.
Qed.

(** ** The prompt *)

Lemma compilePrompt_join (ms : list Message) :
  compilePrompt (Some ms) = Js.join blank_line (map message_line ms).
Proof. unfold compilePrompt. cbn [option_map]. apply or_else_empty. Qed.

Lemma join_from_app sep (l1 l2 : list string) :
  Js.join_from sep "" 1 (l1 ++ l2)%list
  = Js.join_from sep "" 1 l1 ++ Js.join_from sep "" 1 l2.
Proof.
  induction l1 as [|x l1 IH]; [now rewrite string_app_nil_l|].
  change ((x :: l1) ++ l2)%list with (x :: (l1 ++ l2))%list.
  rewrite !join_from_cons, IH. now rewrite !string_app_assoc.
Qed.

Lemma join_app sep (l1 l2 : list string) :
  l1 ≠ [] → l2 ≠ [] →
  Js.join sep (l1 ++ l2)%list = Js.join sep l1 ++ sep ++ Js.join sep l2.
Proof.
  destruct l1 as [|x l1]; [congruence|]. destruct l2 as [|y l2]; [congruence|].
  intros _ _. change ((x :: l1) ++ y :: l2)%list with (x :: (l1 ++ y :: l2))%list.
  rewrite !join_cons, join_from_app, join_from_cons.
  now rewrite !string_app_assoc.
Qed.

(** X9.  The prompt of a conversation in two parts, neither of them
    empty, is the prompt of the first part, a blank line, and the prompt
    of the second part. *)
Theorem compilePrompt_app (ms1 ms2 : list Message) :
  ms1 ≠ [] → ms2 ≠ [] →
  compilePrompt (Some (ms1 ++ ms2)%list)
  = compilePrompt (Some ms1) ++ blank_line ++ compilePrompt (Some ms2).
Proof.
  intros H1 H2. rewrite !compilePrompt_join, map_app.
  apply join_app; now destruct ms1, ms2.
Qed.

Lemma compilePrompt_app_witness :
  compilePrompt (Some ([mkMessage "user" (CString "hi")]
                       ++ [mkMessage "assistant" (CString "hello")])%list)
  = compilePrompt (Some [mkMessage "user" (CString "hi")]) ++ blank_line
    ++ compilePrompt (Some [mkMessage "assistant" (CString "hello")]).
Proof.
  apply (compilePrompt_app [mkMessage "user" (CString "hi")]
           [mkMessage "assistant" (CString "hello")]); discriminate.
Defined.

(** X10.  The prompt does not tell a turn from text that reads like
    one: a message whose string content holds a blank line and
    "Assistant: " compiles to the prompt of two messages, the second one
    an assistant turn. *)
Theorem compilePrompt_turn_in_content (r a b : string) :
  compilePrompt
    (Some [mkMessage r (CString (a ++ blank_line ++ "Assistant: " ++ b))])
  = compilePrompt
      (Some [mkMessage r (CString a); mkMessage "assistant" (CString b)]).
Proof.
  rewrite !compilePrompt_join. cbn [map]. rewrite !join_cons, join_from_cons.
  unfold message_line. cbn [role content message_content].
  change (role_label "assistant") with "Assistant".
  change (Js.join_from blank_line "" 1 []) with "".
  rewrite !string_app_nil_r, !string_app_assoc. reflexivity.
Qed.

(** ** The handler and the session header *)

Lemma handleMessages_streaming cfg now req body :
  json req = Json body → body_stream body ≠ Some false →
  handleMessages cfg now req
  = Streaming
      (mkQuery (compilePrompt (body_messages body))
         (mapModelToClaudeModel (Js.or_else (body_model body) "sonnet")) true
         (if Js.truthy (session_header req) then session_header req else None))
      {| status := 200;
         headers := {[ "Content-Type" := "text/event-stream";
                       "Cache-Control" := "no-cache";
                       "Connection" := "keep-alive";
                       session_header_name :=
                         Js.or_else (session_header req) ("session_" ++ pretty now) ]};
         body := EventStream |}
      (StreamStates.started cfg now (body_model body)).
Proof.
  intros E Hs. unfold handleMessages. rewrite E.
  destruct (body_stream body) as [[|]|]; [reflexivity|congruence|reflexivity].
Qed.

Lemma handleMessages_buffered cfg now req body :
  json req = Json body → body_stream body = Some false →
  handleMessages cfg now req
  = Buffering
      (mkQuery (compilePrompt (body_messages body))
         (mapModelToClaudeModel (Js.or_else (body_model body) "sonnet")) false
         (if Js.truthy (session_header req) then session_header req else None))
      (body_model body) (Buffered.start cfg now).
Proof.
  intros E Hs. unfold handleMessages. rewrite E, Hs. reflexivity.
Qed.

Lemma session_fallback_not_empty (now : Z) : "session_" ++ pretty now ≠ "".
Proof. discriminate. Qed.

Lemma or_else_not_empty (a : option string) (d : string) :
  d ≠ "" → Js.or_else a d ≠ "".
Proof.
  intros H. unfold Js.or_else. destruct a as [v|]; [|exact H].
  now destruct (String.eqb_spec v "").
Qed.

Lemma query_of_serve cfg inputs h :
  query_of (serve cfg inputs h) = query_of h.
Proof.
  destruct h; [now rewrite serve_Failed|now rewrite serve_Buffering
              |now rewrite serve_Streaming].
Qed.

(** X11.  The session header makes a round trip on the streaming path:
    the identifier a streamed response carries in [X-Claude-Session-ID],
    sent as that header of a later streamed request, is passed to the
    engine as [resume] and is the identifier the later response
    carries, whatever the engine does in either request. *)
Theorem session_header_round_trip cfg now1 now2 req1 req2 inputs1 inputs2 v :
  streaming_request req1 → streaming_request req2 →
  session_id_header (serve cfg inputs1 (handleMessages cfg now1 req1)) = Some v →
  session_header req2 = Some v →
  session_id_header (serve cfg inputs2 (handleMessages cfg now2 req2)) = Some v
  ∧ resume <$> query_of (serve cfg inputs2 (handleMessages cfg now2 req2))
    = Some (Some v).
Proof.
  intros (b1 & E1 & S1) (b2 & E2 & S2) H1 H2.
  assert (v ≠ "") as Hv.
  { rewrite (streaming_header_fixed cfg now1 req1 inputs1
               (Stream.run cfg inputs1 (StreamStates.started cfg now1 (body_model b1))))
      in H1.
    - injection H1 as <-. apply or_else_not_empty, session_fallback_not_empty.
    - rewrite (handleMessages_streaming cfg now1 req1 b1 E1 S1), serve_Streaming.
      reflexivity. }
  split.
  - rewrite (streaming_header_fixed cfg now2 req2 inputs2
               (Stream.run cfg inputs2 (StreamStates.started cfg now2 (body_model b2)))).
    + rewrite H2. now rewrite or_else_given.
    + rewrite (handleMessages_streaming cfg now2 req2 b2 E2 S2), serve_Streaming.
      reflexivity.
  - rewrite query_of_serve, (handleMessages_streaming cfg now2 req2 b2 E2 S2).
    cbn. rewrite H2. unfold Js.truthy.
    now destruct (String.eqb_spec v "").
Qed.

Lemma session_header_round_trip_witness :
  session_id_header
    (serve default_timeouts [(2001, EngineDone)]
       (handleMessages default_timeouts 2000 (demo_request None (Some "session_1000"))))
  = Some "session_1000"
  ∧ resume <$> query_of
      (serve default_timeouts [(2001, EngineDone)]
         (handleMessages default_timeouts 2000 (demo_request None (Some "session_1000"))))
    = Some (Some "session_1000").
Proof.
  apply (session_header_round_trip default_timeouts 1000 2000
           (demo_request None None) (demo_request None (Some "session_1000"))
           [(1001, EngineDone)] [(2001, EngineDone)] "session_1000").
  - eexists. split; [reflexivity|discriminate].
  - eexists. split; [reflexivity|discriminate].
  - vm_compute. reflexivity.
  - reflexivity.
Defined.

(** ** The buffered path *)

Lemma buffered_run_cons model t i inputs s :
  Buffered.run model ((t, i) :: inputs) s
  = Buffered.run model inputs (Buffered.step model t i s).
Proof. reflexivity. Qed.

Lemma buffered_run_app model inputs1 inputs2 s :
  Buffered.run model (inputs1 ++ inputs2)%list s
  = Buffered.run model inputs2 (Buffered.run model inputs1 s).
Proof. unfold Buffered.run. apply fold_left_app. Qed.

Lemma buffered_step_answered model t i s r :
  Buffered.response s = Some r →
  Buffered.response (Buffered.step model t i s) = Some r.
Proof.
  intros H. unfold Buffered.step, Buffered.answered. rewrite H.
  destruct i as [m| |e| |[| |]]; try assumption.
  destruct (due (Buffered.timeout s) t); assumption.
Qed.

Lemma buffered_run_answered model inputs s r :
  Buffered.response s = Some r →
  Buffered.response (Buffered.run model inputs s) = Some r.
Proof.
  revert s. induction inputs as [|[t i] inputs IH]; intros s H; [exact H|].
  rewrite buffered_run_cons. now apply IH, buffered_step_answered.
Qed.

Lemma concat_texts_app (l1 l2 : list Block) :
  concat_texts (l1 ++ l2)%list = concat_texts l1 ++ concat_texts l2.
Proof.
  induction l1 as [|b l1 IH]; [now rewrite string_app_nil_l|].
  cbn. unfold concat_texts in IH. rewrite IH. now rewrite string_app_assoc.
Qed.

Lemma append_text_eq (fc : string) (content : list Block) :
  Buffered.append_text fc content
  = fc ++ concat_texts (filter (λ b, Is_true (Stream.is_text b)) content).
Proof.
  revert fc. induction content as [|b content IH]; intros fc.
  - now rewrite string_app_nil_r.
  - cbn [Buffered.append_text]. rewrite IH, filter_cons.
    destruct (String.eqb (block_type b) "text") eqn:E.
    + rewrite decide_True by (unfold Stream.is_text; now rewrite E).
      change (concat_texts (b :: ?l)) with (appended_text b ++ concat_texts l).
      now rewrite string_app_assoc.
    + rewrite decide_False by (unfold Stream.is_text; now rewrite E).
      reflexivity.
Qed.

Lemma buffered_collect model inputs s :
  Forall (λ ti, is_terminal ti.2 = false) inputs →
  Buffered.response s = None →
  Buffered.response (Buffered.run model inputs s) = None
  ∧ Buffered.fullContent (Buffered.run model inputs s)
    = Buffered.fullContent s ++ concat_texts (text_blocks inputs)
  ∧ Buffered.currentSessionId (Buffered.run model inputs s)
    = match last (reported_sessions inputs) with
      | Some sid => Some sid
      | None => Buffered.currentSessionId s
      end.
Proof.
  revert s. induction inputs as [|[t i] inputs IH]; intros s HF Hr.
  - cbn. now rewrite string_app_nil_r.
  - apply Forall_cons in HF as [Hi HF]. cbn in Hi.
    rewrite buffered_run_cons.
    assert (Buffered.answered s = false) as Ha
      by (unfold Buffered.answered; now rewrite Hr).
    destruct i as [m| |e| |k]; try discriminate; cbn [Buffered.step].
    + rewrite Ha. destruct m as [sid content| | | |];
        try (cbn [Buffered.consume];
             destruct (IH s HF Hr) as (-> & -> & ->); now repeat split).
      destruct (IH (Buffered.consume (Assistant sid content) s) HF Hr)
        as (-> & -> & ->).
      split; [reflexivity|]. cbn [Buffered.consume Buffered.fullContent
                                   Buffered.currentSessionId].
      split.
      * rewrite append_text_eq.
        change (text_blocks ((t, EngineYield (Assistant sid content)) :: inputs))
          with (filter (λ b, Is_true (Stream.is_text b)) content
                  ++ text_blocks inputs)%list.
        now rewrite concat_texts_app, string_app_assoc.
      * destruct sid as [sid|]; [|reflexivity].
        change (reported_sessions
                  ((t, EngineYield (Assistant (Some sid) content)) :: inputs))
          with ((if String.eqb sid "" then [] else [sid])
                  ++ reported_sessions inputs)%list.
        unfold Js.truthy. destruct (String.eqb sid ""); cbn [negb app];
          [reflexivity|].
        rewrite last_cons. now destruct (last (reported_sessions inputs)).
    + destruct (IH s HF Hr) as (-> & -> & ->). now repeat split.
    + destruct k; try (destruct (IH s HF Hr) as (-> & -> & ->); now repeat split).
      destruct (due (Buffered.timeout s) t);
        [|destruct (IH s HF Hr) as (-> & -> & ->); now repeat split].
      destruct (IH (Buffered.on_timeout s) HF Hr) as (-> & -> & ->).
      now repeat split.
Qed.

(** X12.  The answer of the buffered path.  While the engine has
    neither ended nor failed, text is collected; when it ends at time
    [t], the response has status 200, as text the texts of all text
    blocks of the assistant turns in order, as session header the last
    session identifier an assistant turn reported, or [session_<t>] when
    none did, and as message identifier [msg_<t>]; when it fails
    instead, the response is that of the outer catch block.  Inputs that
    come later change nothing. *)
Theorem buffered_response_collects cfg now req body inputs t more e :
  json req = Json body → body_stream body = Some false →
  Forall (λ ti, is_terminal ti.2 = false) inputs →
  response_of (serve cfg (inputs ++ (t, EngineDone) :: more)%list
                 (handleMessages cfg now req))
  = Some {| status := 200;
            headers := {[ session_header_name :=
                          Js.or_else (last (reported_sessions inputs))
                                     ("session_" ++ pretty t) ]};
            body := MessageJson ("msg_" ++ pretty t)
                      (concat_texts (text_blocks inputs)) (body_model body) |}
  ∧ response_of (serve cfg (inputs ++ (t, EngineThrow e) :: more)%list
                   (handleMessages cfg now req))
    = Some (outerCatch e).
Proof.
  intros E Hs HF.
  rewrite (handleMessages_buffered cfg now req body E Hs), !serve_Buffering.
  cbn [response_of]. rewrite !buffered_run_app, !buffered_run_cons.
  destruct (buffered_collect (body_model body) inputs (Buffered.start cfg now) HF
              eq_refl) as (Hr & Hc & Hi).
  split; apply buffered_run_answered;
    unfold Buffered.step, Buffered.answered; rewrite Hr; [|reflexivity].
  unfold Buffered.respond. cbn [Buffered.response].
  rewrite Hc, Hi. cbn [Buffered.start Buffered.fullContent Buffered.currentSessionId].
  rewrite string_app_nil_l.
  now destruct (last (reported_sessions inputs)).
Qed.

Lemma buffered_response_collects_witness :
  response_of
    (serve default_timeouts
       ([(1001, EngineYield (Assistant (Some "abc") [mkBlock "text" (Some "hello")]))]
          ++ [(1002, EngineDone)])%list
       (handleMessages default_timeouts 1000 (demo_request (Some false) None)))
  = Some {| status := 200;
            headers := {[ session_header_name := "abc" ]};
            body := MessageJson "msg_1002" "hello" (Some "sonnet") |}.
Proof.
  refine (proj1 (buffered_response_collects default_timeouts 1000
                   (demo_request (Some false) None)
                   (mkBody (Some "sonnet") (Some false)
                      (Some [mkMessage "user" (CString "hi")]))
                   [(1001, EngineYield (Assistant (Some "abc")
                                          [mkBlock "text" (Some "hello")]))]
                   1002 [] (Js.NotError "") eq_refl eq_refl _)).
  repeat constructor.
Defined.

Lemma buffered_aborted_kept model inputs s reason :
  Buffered.aborted s = Some reason →
  Buffered.aborted (Buffered.run model inputs s) = Some reason.
Proof.
  revert s. induction inputs as [|[t i] inputs IH]; intros s H; [exact H|].
  rewrite buffered_run_cons. apply IH.
  unfold Buffered.step.
  destruct i as [m| |e| |[| |]]; try assumption;
    try (destruct (Buffered.answered s); [assumption|]).
  - destruct m; cbn; assumption.
  - cbn; assumption.
  - cbn; assumption.
  - destruct (due (Buffered.timeout s) t); [|assumption].
    cbn. now rewrite H.
Qed.

Lemma buffered_timeout_from model inputs s deadline :
  Forall (λ ti, is_terminal ti.2 = false) inputs →
  Buffered.response s = None →
  Buffered.timeout s = Some deadline → Buffered.aborted s = None →
  Buffered.response (Buffered.run model inputs s) = None
  ∧ (Buffered.aborted (Buffered.run model inputs s) = Some "Request timeout"
     ↔ ∃ t, (t, TimerDue TotalTimer) ∈ inputs ∧ deadline ≤ t)
  ∧ (Buffered.aborted (Buffered.run model inputs s) = None
     ∨ Buffered.aborted (Buffered.run model inputs s) = Some "Request timeout").
Proof.
  revert s. induction inputs as [|[t i] inputs IH]; intros s HF Hr Ht Ha.
  - cbn. split; [exact Hr|]. split; [|now left].
    rewrite Ha. split; [discriminate|].
    intros (t & Hin & _). now apply elem_of_nil in Hin.
  - pose proof HF as HF'. apply Forall_cons in HF' as [Hi HFr]. cbn in Hi.
    assert (∀ s1, Buffered.response s1 = None →
                  Buffered.timeout s1 = Some deadline →
                  Buffered.aborted s1 = None →
                  (i = TimerDue TotalTimer → ¬ deadline ≤ t) →
                  Buffered.response (Buffered.run model inputs s1) = None
                  ∧ (Buffered.aborted (Buffered.run model inputs s1)
                     = Some "Request timeout"
                     ↔ ∃ u, (u, TimerDue TotalTimer) ∈ (t, i) :: inputs
                            ∧ deadline ≤ u)
                  ∧ (Buffered.aborted (Buffered.run model inputs s1) = None
                     ∨ Buffered.aborted (Buffered.run model inputs s1)
                       = Some "Request timeout")) as Hkeep.
    { intros s1 H1 H2 H3 Hnot.
      destruct (IH s1 HFr H1 H2 H3) as (R1 & R2 & R3).
      split; [exact R1|]. split; [|exact R3].
      rewrite R2. split.
      - intros (u & Hin & Hu). exists u. split; [now right|exact Hu].
      - intros (u & Hin & Hu). apply elem_of_cons in Hin as [Hin|Hin].
        + injection Hin as -> Hi'. exfalso. now apply Hnot.
        + now exists u. }
    rewrite buffered_run_cons.
    assert (Buffered.answered s = false) as Hans
      by (unfold Buffered.answered; now rewrite Hr).
    destruct i as [m| |e| |k]; try discriminate; cbn [Buffered.step].
    + rewrite Hans. apply Hkeep; try (intros; discriminate).
      * destruct m; assumption.
      * destruct m; assumption.
      * destruct m; assumption.
    + apply Hkeep; try assumption. intros; discriminate.
    + destruct k; try (apply Hkeep; try assumption; intros; discriminate).
      unfold due. rewrite Ht. destruct (Z.leb_spec deadline t) as [Hd|Hd].
      * pose proof (buffered_collect model inputs (Buffered.on_timeout s) HFr Hr)
          as (R1 & _).
        assert (Buffered.aborted (Buffered.run model inputs (Buffered.on_timeout s))
                = Some "Request timeout") as R2.
        { apply buffered_aborted_kept. cbn. now rewrite Ha. }
        split; [exact R1|]. rewrite R2. split; [|now right].
        split; [|reflexivity]. intros _. exists t. split; [now left|exact Hd].
      * apply Hkeep; try assumption. intros _. lia.
Qed.

(** X13.  The timeout of the buffered path does not answer the request.
    For a total timeout that [setTimeout] takes as it is, from 1 to
    2147483647 ms: while the engine has neither ended nor failed there
    is no response, and the abort signal is triggered, with the reason
    "Request timeout", exactly when the timer's callback has run at or
    after the deadline, the time of the request plus the total
    timeout. *)
Theorem buffered_timeout_only_aborts cfg model now inputs :
  in_timer_range (streamTimeout cfg) →
  Forall (λ ti, is_terminal ti.2 = false) inputs →
  Buffered.response (Buffered.run model inputs (Buffered.start cfg now)) = None
  ∧ (Buffered.aborted (Buffered.run model inputs (Buffered.start cfg now))
     = Some "Request timeout"
     ↔ ∃ t, (t, TimerDue TotalTimer) ∈ inputs ∧ now + streamTimeout cfg ≤ t)
  ∧ (Buffered.aborted (Buffered.run model inputs (Buffered.start cfg now)) = None
     ∨ Buffered.aborted (Buffered.run model inputs (Buffered.start cfg now))
       = Some "Request timeout").
Proof.
  intros Hrange HF. apply buffered_timeout_from; try assumption; try reflexivity.
  cbn. now rewrite timer_delay_in_range.
Qed.

Lemma buffered_timeout_only_aborts_witness :
  Buffered.response
    (Buffered.run (Some "sonnet")
       [(1001, EngineYield (Assistant None [mkBlock "text" (Some "hello")]));
        (3601000, TimerDue TotalTimer)]
       (Buffered.start default_timeouts 1000)) = None
  ∧ Buffered.aborted
      (Buffered.run (Some "sonnet")
         [(1001, EngineYield (Assistant None [mkBlock "text" (Some "hello")]));
          (3601000, TimerDue TotalTimer)]
         (Buffered.start default_timeouts 1000)) = Some "Request timeout".
Proof.
  destruct (buffered_timeout_only_aborts default_timeouts (Some "sonnet") 1000
              [(1001, EngineYield (Assistant None [mkBlock "text" (Some "hello")]));
               (3601000, TimerDue TotalTimer)]) as (R & A & _).
  - unfold in_timer_range. cbn. lia.
  - repeat constructor.
  - split; [exact R|]. apply A. exists 3601000. split.
    + right. left.
    + cbn. lia.
Defined.

Lemma buffered_header_kept (P : Response → Prop) model inputs s :
  (∀ now s0, P (default (outerCatch (Js.NotError ""))
                  (Buffered.response (Buffered.respond model now s0)))) →
  (∀ e, P (outerCatch e)) →
  (∀ r, Buffered.response s = Some r → P r) →
  ∀ r, Buffered.response (Buffered.run model inputs s) = Some r → P r.
Proof.
  intros Hrespond Hfail. revert s.
  induction inputs as [|[t i] inputs IH]; intros s Hs; [exact Hs|].
  rewrite buffered_run_cons. apply IH.
  destruct (Buffered.response s) as [r0|] eqn:E.
  - intros r Hr. rewrite (buffered_step_answered model t i s r0 E) in Hr.
    injection Hr as <-. now apply Hs.
  - unfold Buffered.step, Buffered.answered. rewrite E.
    intros r Hr. destruct i as [m| |e| |[| |]]; try congruence.
    + destruct m; cbn in Hr; congruence.
    + specialize (Hrespond t s). cbn in Hrespond, Hr.
      injection Hr as <-. exact Hrespond.
    + cbn in Hr. injection Hr as <-. apply Hfail.
    + destruct (due (Buffered.timeout s) t); cbn in Hr; congruence.
Qed.

(** X15.  Every response with status 200, streamed or not, carries a
    session header that is not empty; every other response is one of
    the outer catch block, with status 401 or 500. *)
Theorem success_has_session_header cfg now req inputs r :
  response_of (serve cfg inputs (handleMessages cfg now req)) = Some r →
  (status r = 200 ∧ ∃ v, headers r !! session_header_name = Some v ∧ v ≠ "")
  ∨ (∃ e, r = outerCatch e ∧ (status r = 401 ∨ status r = 500)).
Proof.
  assert (∀ e, status (outerCatch e) = 401 ∨ status (outerCatch e) = 500) as Hst.
  { intros e. cbn. destruct (isExitCode1 e); auto. }
  unfold handleMessages. destruct (json req) as [body|e].
  - destruct (negb (default true (body_stream body))).
    + rewrite serve_Buffering. cbn [response_of].
      apply (buffered_header_kept
               (λ r, (status r = 200
                      ∧ ∃ v, headers r !! session_header_name = Some v ∧ v ≠ "")
                     ∨ (∃ e, r = outerCatch e ∧ (status r = 401 ∨ status r = 500)))).
      * intros t s0. left. cbn. split; [reflexivity|].
        exists (Js.or_else (Buffered.currentSessionId s0) ("session_" ++ pretty t)).
        split; [unfold session_header_name; now simplify_map_eq|].
        apply or_else_not_empty, session_fallback_not_empty.
      * intros e. right. exists e. auto.
      * intros r0. cbn. discriminate.
    + rewrite serve_Streaming. cbn [response_of]. intros [= <-]. left.
      cbn [status headers]. split; [reflexivity|].
      exists (Js.or_else
                (Js.or_opt
                   (Stream.currentSessionId
                      (Stream.start cfg now (body_model body) Stream.initial).2)
                   (session_header req))
                ("session_" ++ pretty now)).
      split; [unfold session_header_name; now simplify_map_eq|].
      apply or_else_not_empty, session_fallback_not_empty.
  - rewrite serve_Failed. cbn [response_of]. intros [= <-]. right. exists e. auto.
Qed.

Lemma success_has_session_header_witness :
  (status {| status := 200;
             headers := {[ session_header_name := "session_1002" ]};
             body := MessageJson "msg_1002" "" (Some "sonnet") |} = 200
   ∧ ∃ v, ({[ session_header_name := "session_1002" ]} : gmap string string)
            !! session_header_name = Some v ∧ v ≠ "")
  ∨ (∃ e, {| status := 200;
             headers := {[ session_header_name := "session_1002" ]};
             body := MessageJson "msg_1002" "" (Some "sonnet") |} = outerCatch e
          ∧ (200 = 401 ∨ 200 = 500)).
Proof.
  apply (success_has_session_header default_timeouts 1000
           (demo_request (Some false) None) [(1002, EngineDone)]).
  vm_compute. reflexivity.
Defined.

(** ** The streaming path *)

Module StreamMore.
Import Stream StreamStates StreamFacts.
Local Open Scope list_scope.

#[local] Arguments is_text_delta : simpl never.
#[local] Arguments forwards_block_start : simpl never.
#[local] Arguments classifyStreamError : simpl never.
#[local] Arguments Js.truthy : simpl never.

Lemma pings_app (l1 l2 : list Frame) :
  pings (l1 ++ l2) = (pings l1 + pings l2)%nat.
Proof. unfold pings. now rewrite filter_app, length_app. Qed.

Lemma pings_triads i l : pings (triads_from i l) = 0%nat.
Proof.
  revert i. induction l as [|b l IH]; intros i; [reflexivity|].
  cbn [triads_from]. rewrite pings_app, IH.
  now destruct (is_text b).
Qed.

Lemma pings_emitted seen m : pings (emitted seen m) = 0%nat.
Proof.
  destruct m as [sid content| | |event|]; try reflexivity.
  - cbn [emitted]. destruct seen; [reflexivity|apply pings_triads].
  - destruct event as [index bt|index [d|]|index|]; cbn [emitted forwarded];
      try reflexivity.
    + now destruct (forwards_block_start bt).
    + now destruct (is_text_delta (Some d)).
Qed.

Lemma heartbeat_calls_cons t i inputs :
  heartbeat_calls ((t, i) :: inputs)
  = ((if is_heartbeat i then 1 else 0) + heartbeat_calls inputs)%nat.
Proof.
  unfold heartbeat_calls. rewrite filter_cons. cbn [snd].
  destruct (is_heartbeat i).
  - now rewrite decide_True by exact I.
  - now rewrite decide_False by (intros []).
Qed.

Section WithTimeouts.
Variable cfg : Timeouts.

Lemma transition_frames now i s s' :
  transition cfg now i s s' →
  ∃ more, frames s' = frames s ++ more
          ∧ (pings more ≤ if is_heartbeat i then 1 else 0)%nat.
Proof.
  intros T.
  destruct T as [now i s|now m s H1 H2 H3|now m s H1 H2 H3|now i s H1 H2
                |now e s H1 H2 H3|now i s H1 H2|now m s H1 H2 H3|now s H1
                |now k reason s H1 H2|now s H1 H2|now s].
  - exists []. split; [now rewrite app_nil_r|]. destruct (is_heartbeat i); cbn; lia.
  - exists (emitted (hasStreamEvents s) m). split; [reflexivity|].
    rewrite pings_emitted. cbn. lia.
  - exists []. split; [now rewrite app_nil_r|]. cbn. lia.
  - exists closing_frames. split; [reflexivity|].
    replace (pings closing_frames) with 0%nat by reflexivity.
    destruct (is_heartbeat i); lia.
  - exists [error_frame e]. split; [reflexivity|].
    replace (pings [error_frame e]) with 0%nat by reflexivity. cbn. lia.
  - exists []. split; [now rewrite app_nil_r|]. destruct (is_heartbeat i); cbn; lia.
  - exists []. split; [now rewrite app_nil_r|]. cbn. lia.
  - exists []. split; [now rewrite app_nil_r|]. cbn. lia.
  - exists []. split; [now rewrite app_nil_r|]. destruct k; cbn; lia.
  - exists [Ping]. split; [reflexivity|].
    replace (pings [Ping]) with 1%nat by reflexivity. cbn. lia.
  - exists []. split; [now rewrite app_nil_r|]. cbn. lia.
Qed.

Lemma run_frames_grow inputs s :
  ∃ more, frames (run cfg inputs s) = frames s ++ more
          ∧ (pings more ≤ heartbeat_calls inputs)%nat.
Proof.
  revert s. induction inputs as [|[t i] inputs IH]; intros s.
  - exists []. split; [now rewrite app_nil_r|]. cbn. lia.
  - rewrite run_cons.
    destruct (transition_frames t i s _ (step_transition cfg t i s))
      as (m1 & E1 & B1).
    destruct (IH (step cfg t i s)) as (m2 & E2 & B2).
    exists (m1 ++ m2). rewrite E2, E1, <- app_assoc. split; [reflexivity|].
    rewrite pings_app, heartbeat_calls_cons. lia.
Qed.

Lemma transition_aborted_kept now i s s' reason :
  transition cfg now i s s' → aborted s = Some reason → aborted s' = Some reason.
Proof.
  intros T H. destruct T; try exact H; try (destruct s; exact H).
  cbn. now rewrite H.
Qed.

Lemma run_aborted_kept inputs s reason :
  aborted s = Some reason → aborted (run cfg inputs s) = Some reason.
Proof.
  apply (run_invariant cfg (λ s', aborted s' = Some reason)).
  intros t i s1 s2 T. now apply (transition_aborted_kept t i).
Qed.

Lemma run_closed inputs s :
  closed s = true →
  closed (run cfg inputs s) = true ∧ frames (run cfg inputs s) = frames s.
Proof.
  intros H.
  apply (run_invariant cfg (λ s', closed s' = true ∧ frames s' = frames s));
    [|now split].
  intros t i s1 s2 T [C F].
  destruct (transition_closed cfg t i s1 s2 T C) as [C' F'].
  split; [exact C'|congruence].
Qed.

Lemma step_timeout now k s :
  k ≠ HeartbeatTimer → due (timer k s) now = true →
  step cfg now (TimerDue k) s = timed_out k (timeout_reason k) s.
Proof.
  intros Hk Hd. destruct k; [| |congruence]; cbn in Hd; unfold step; rewrite Hd;
    destruct s as [? cl ab ? ? ? ? ? ? ? ? ?]; run_eff;
    destruct ab, cl; reflexivity.
Qed.

Lemma run_over inputs s :
  wf s → suspended s = false →
  frames (run cfg inputs s) = frames s
  ∧ aborted (run cfg inputs s) = aborted s
  ∧ closed (run cfg inputs s) = true
  ∧ timeoutId (run cfg inputs s) = None
  ∧ inactivityTimeoutId (run cfg inputs s) = None
  ∧ heartbeat (run cfg inputs s) = None
  ∧ suspended (run cfg inputs s) = false.
Proof.
  intros W H.
  assert (wf (run cfg inputs s) ∧ suspended (run cfg inputs s) = false
          ∧ frames (run cfg inputs s) = frames s
          ∧ aborted (run cfg inputs s) = aborted s) as (W' & H' & F & A).
  { apply (run_invariant cfg
             (λ s', wf s' ∧ suspended s' = false ∧ frames s' = frames s
                    ∧ aborted s' = aborted s));
      [|split; [exact W|split; [exact H|split; reflexivity]]].
    intros t i s1 s2 T (W1 & H1 & F1 & A1).
    split; [exact (wf_transition cfg t i s1 s2 T W1)|].
    destruct (wf_ended s1 W1 H1) as (Hc & Ht & Hi & Hh).
    destruct T as [now i s1|now m s1 Hs Hcd Hcl|now m s1 Hs Hcd Hcl
                  |now i s1 Hs Hcl|now e s1 Hs Hcl Hcd|now i s1 Hs Hor
                  |now m s1 Hs Hcd Hcl|now s1 Hcd
                  |now k reason s1 Hk Hk'|now s1 Hcl Hcd|now s1];
      try congruence;
      try (destruct s1; cbn in *; now repeat split).
    destruct k; cbn in Hk'; destruct Hk' as [? Hk']; congruence. }
  destruct (wf_ended _ W' H') as (Hc & Ht & Hi & Hh).
  now repeat split.
Qed.

Lemma transition_timers now i s s' :
  transition cfg now i s s' →
  (∀ m, i ≠ EngineYield m) → i ≠ TimerDue TotalTimer →
  i ≠ TimerDue InactivityTimer →
  aborted s' = aborted s
  ∧ (timeoutId s' = None ∨ timeoutId s' = timeoutId s)
  ∧ (inactivityTimeoutId s' = None
     ∨ inactivityTimeoutId s' = inactivityTimeoutId s).
Proof.
  intros T Hy Ht Hi.
  destruct T as [now i s|now m s H1 H2 H3|now m s H1 H2 H3|now i s H1 H2
                |now e s H1 H2 H3|now i s H1 H2|now m s H1 H2 H3|now s H1
                |now k reason s H1 H2|now s H1 H2|now s];
    try (exfalso; now apply (Hy m));
    try (cbn; now auto).
  destruct k; congruence.
Qed.

Lemma step_within deadline last t i s :
  in_timer_range (inactivityTimeout cfg) →
  wf s → timers_set cfg deadline last s →
  t < deadline → t < last + inactivityTimeout cfg →
  timers_set cfg deadline (match i with EngineYield _ => t | _ => last end)
    (step cfg t i s).
Proof.
  intros Hrange W (Ha & Ht & Hi) Hd Hl. unfold timers_set.
  assert (∀ s', transition cfg t i s s' →
                (∀ m, i ≠ EngineYield m) → i ≠ TimerDue TotalTimer →
                i ≠ TimerDue InactivityTimer →
                aborted s' = None
                ∧ (timeoutId s' = None ∨ timeoutId s' = Some deadline)
                ∧ (inactivityTimeoutId s' = None
                   ∨ inactivityTimeoutId s' = Some (last + inactivityTimeout cfg)))
    as Hother.
  { intros s' T H1 H2 H3.
    destruct (transition_timers t i s s' T H1 H2 H3) as (-> & [->| ->] & [->| ->]);
      auto. }
  destruct i as [m| |e| |[| |]];
    try (apply Hother; [apply step_transition|congruence..]).
  - unfold step. destruct (suspended s) eqn:Hs.
    + unfold resume. destruct (clientDisconnected s) eqn:Hcd.
      * rewrite process_message_disconnected by assumption.
        destruct (closed s) eqn:Hcl.
        -- rewrite finish_closed by assumption. cbn. auto.
        -- rewrite finish_open by assumption. cbn. auto.
      * destruct (closed s) eqn:Hcl.
        -- destruct (wf_closed s W Hcl Hs); congruence.
        -- rewrite process_message_open by assumption.
           destruct s; cbn in *. rewrite timer_delay_in_range by assumption.
           auto.
    + destruct (wf_ended s W Hs) as (_ & -> & -> & _). auto.
  - unfold step.
    replace (due (timeoutId s) t) with false; [auto|].
    destruct Ht as [-> | ->]; [reflexivity|]. cbn. symmetry. lia.
  - unfold step.
    replace (due (inactivityTimeoutId s) t) with false; [auto|].
    destruct Hi as [-> | ->]; [reflexivity|]. cbn. symmetry. lia.
Qed.

Lemma run_within deadline last inputs s :
  in_timer_range (inactivityTimeout cfg) →
  wf s → timers_set cfg deadline last s →
  within_windows cfg deadline last inputs →
  aborted (run cfg inputs s) = None.
Proof.
  intros Hrange.
  revert last s. induction inputs as [|[t i] inputs IH]; intros last s W A H.
  - exact (proj1 A).
  - cbn [within_windows] in H. destruct H as (Hd & Hl & H).
    rewrite run_cons.
    apply (IH (match i with EngineYield _ => t | _ => last end)).
    + exact (wf_transition cfg t i s _ (step_transition cfg t i s) W).
    + now apply step_within.
    + exact H.
Qed.

Lemma run_yields ms s :
  suspended s = true → clientDisconnected s = false → closed s = false →
  suspended (run cfg (yields ms) s) = true
  ∧ clientDisconnected (run cfg (yields ms) s) = false
  ∧ closed (run cfg (yields ms) s) = false
  ∧ frames (run cfg (yields ms) s)
    = frames s ++ translated (hasStreamEvents s) (map snd ms)
  ∧ currentSessionId (run cfg (yields ms) s)
    = if Js.truthy (currentSessionId s) then currentSessionId s
      else match head (reported_sessions (yields ms)) with
           | Some sid => Some sid
           | None => currentSessionId s
           end.
Proof.
  revert s. induction ms as [|[t m] ms IH]; intros s Hs Hcd Hcl.
  - cbn. rewrite app_nil_r. repeat split; try assumption.
    now destruct (Js.truthy (currentSessionId s)).
  - change (yields ((t, m) :: ms)) with ((t, EngineYield m) :: yields ms).
    rewrite run_cons, step_yield_open by assumption.
    destruct (IH (set_frames (frames s ++ emitted (hasStreamEvents s) m)
                    (bookkeep cfg t m s)))
      as (R1 & R2 & R3 & R4 & R5); try (destruct s; assumption).
    repeat split; try assumption.
    + rewrite R4.
      replace (frames (set_frames (frames s ++ emitted (hasStreamEvents s) m)
                         (bookkeep cfg t m s)))
        with (frames s ++ emitted (hasStreamEvents s) m)
        by (destruct s; reflexivity).
      replace (hasStreamEvents
                 (set_frames (frames s ++ emitted (hasStreamEvents s) m)
                    (bookkeep cfg t m s)))
        with (hasStreamEvents s || is_stream_event m)
        by (destruct s as [? ? ? ? ? ? ? ? ? ? seen ?], m; cbn;
            rewrite ?orb_false_r, ?orb_true_r; reflexivity).
      cbn [map snd translated]. now rewrite app_assoc.
    + rewrite R5. clear IH R1 R2 R3 R4 R5.
      destruct s as [? ? ? ? ? ? ? cur ? ? ? ?].
      cbn [currentSessionId set_frames bookkeep].
      destruct m as [sid content| | | |]; try reflexivity.
      destruct sid as [sid|].
      * change (reported_sessions
                  ((t, EngineYield (Assistant (Some sid) content)) :: yields ms))
          with ((if String.eqb sid "" then [] else [sid])
                  ++ reported_sessions (yields ms)).
        unfold Js.truthy.
        destruct (String.eqb sid "") eqn:E; destruct cur as [c|];
          try destruct (String.eqb c "") eqn:E'; cbn; rewrite ?E, ?E'; cbn;
          reflexivity.
      * change (reported_sessions
                  ((t, EngineYield (Assistant None content)) :: yields ms))
          with (reported_sessions (yields ms)).
        reflexivity.
Qed.

End WithTimeouts.

Lemma streamed_text_app (l1 l2 : list Frame) :
  streamed_text (l1 ++ l2) = (streamed_text l1 ++ streamed_text l2)%string.
Proof.
  induction l1 as [|f l1 IH]; [now rewrite string_app_nil_l|].
  cbn. unfold streamed_text in IH. rewrite IH.
  destruct f as [| |index d| | | | |]; try reflexivity.
  destruct (delta_text d); [now rewrite string_app_assoc|reflexivity].
Qed.

Lemma streamed_triads i (content : list Block) :
  Forall (λ b, Is_true (is_text b) → block_text b ≠ None) content →
  streamed_text (triads_from i (filter (λ b, Is_true (is_text b)) content))
  = concat_texts (filter (λ b, Is_true (is_text b)) content).
Proof.
  revert i. induction content as [|b content IH]; intros i H; [reflexivity|].
  apply Forall_cons in H as [Hb H]. rewrite filter_cons.
  destruct (is_text b) eqn:E.
  - rewrite decide_True by exact I. cbn [triads_from]. rewrite E.
    rewrite streamed_text_app, (IH (S i) H).
    change (concat_texts (b :: ?l))
      with (appended_text b ++ concat_texts l)%string.
    f_equal. unfold appended_text, triad. cbn.
    destruct (block_text b) as [txt|] eqn:Eb.
    + now rewrite string_app_nil_r.
    + exfalso. now apply Hb.
  - rewrite decide_False by (intros []). now apply IH.
Qed.

Lemma streamed_translated (ms : list (Z * SDKMessage)) :
  texts_present ms →
  streamed_text (translated false (map snd ms))
  = concat_texts (text_blocks (yields ms)).
Proof.
  induction ms as [|[t m] ms IH]; intros H; [reflexivity|].
  apply Forall_cons in H as [Hm H]. cbn [snd] in Hm.
  cbn [map snd translated].
  change (text_blocks (yields ((t, m) :: ms)))
    with ((match m with
           | Assistant _ content => filter (λ b, Is_true (is_text b)) content
           | _ => []
           end) ++ text_blocks (yields ms)).
  rewrite streamed_text_app, concat_texts_app.
  destruct m as [sid content| | |event|]; try contradiction;
    cbn [is_stream_event orb]; rewrite (IH H); try reflexivity.
  f_equal. cbn [emitted]. now apply streamed_triads.
Qed.

End StreamMore.

Lemma serve_app cfg inputs1 inputs2 h :
  serve cfg (inputs1 ++ inputs2)%list h = serve cfg inputs2 (serve cfg inputs1 h).
Proof. unfold serve. apply fold_left_app. Qed.

Lemma stream_of_Streaming h s :
  stream_of h = Some s → ∃ q r, h = Streaming q r s.
Proof.
  destruct h as [r|q m b|q r s0]; cbn; try discriminate.
  intros [= ->]. eauto.
Qed.

(** X17.  A keep-alive comment is written by the heartbeat callback
    only, one per call at most: the output of a request holds no more
    of them than the runtime has called the heartbeat back. *)
Theorem pings_only_from_heartbeat cfg now req inputs :
  (pings (frames_of (serve cfg inputs (handleMessages cfg now req)))
   ≤ heartbeat_calls inputs)%nat.
Proof.
  unfold handleMessages. destruct (json req) as [body|e].
  - destruct (negb (default true (body_stream body))).
    + rewrite serve_Buffering. cbn. lia.
    + rewrite serve_Streaming. cbn [frames_of].
      destruct (StreamMore.run_frames_grow cfg inputs
                  (Stream.start cfg now (body_model body) Stream.initial).2)
        as (more & -> & B).
      rewrite StreamMore.pings_app.
      replace (pings (Stream.frames
                        (Stream.start cfg now (body_model body) Stream.initial).2))
        with 0%nat by reflexivity.
      exact B.
  - rewrite serve_Failed. cbn. lia.
Qed.

(** X18.  A timeout callback that runs when due closes the output for
    good: whatever comes after it, no frame is added to those written
    before it, and the abort signal carries the reason of the first
    timeout. *)
Theorem timeout_freezes_output cfg now k s inputs :
  k ≠ HeartbeatTimer → due (StreamStates.timer k s) now = true →
  Stream.closed (Stream.run cfg inputs (Stream.step cfg now (TimerDue k) s)) = true
  ∧ Stream.frames (Stream.run cfg inputs (Stream.step cfg now (TimerDue k) s))
    = Stream.frames s
  ∧ Stream.aborted (Stream.run cfg inputs (Stream.step cfg now (TimerDue k) s))
    = Some (default (timeout_reason k) (Stream.aborted s)).
Proof.
  intros Hk Hd. rewrite (StreamMore.step_timeout cfg now k s Hk Hd).
  destruct (StreamMore.run_closed cfg inputs
              (StreamStates.timed_out k (timeout_reason k) s) eq_refl) as [C F].
  split; [exact C|]. split; [exact F|].
  apply StreamMore.run_aborted_kept. cbn.
  now destruct (Stream.aborted s).
Qed.

Lemma timeout_freezes_output_witness :
  Stream.frames
    (Stream.run default_timeouts
       [(901001, EngineYield (Assistant None [mkBlock "text" (Some "late")]));
        (901002, EngineDone)]
       (Stream.step default_timeouts 901000 (TimerDue InactivityTimer)
          (StreamStates.started default_timeouts 1000 (Some "sonnet"))))
  = StreamStates.preamble 1000 (Some "sonnet")
  ∧ Stream.aborted
      (Stream.run default_timeouts
         [(901001, EngineYield (Assistant None [mkBlock "text" (Some "late")]));
          (901002, EngineDone)]
         (Stream.step default_timeouts 901000 (TimerDue InactivityTimer)
            (StreamStates.started default_timeouts 1000 (Some "sonnet"))))
    = Some "Stream inactivity timeout".
Proof.
  destruct (timeout_freezes_output default_timeouts 901000 InactivityTimer
              (StreamStates.started default_timeouts 1000 (Some "sonnet"))
              [(901001, EngineYield (Assistant None [mkBlock "text" (Some "late")]));
               (901002, EngineDone)]) as (_ & F & A).
  - discriminate.
  - reflexivity.
  - split; [exact F|exact A].
Defined.

(** X19.  Once [start] is over the stream is inert: whatever inputs
    follow, from the engine, the client or a timer, the frames and the
    abort signal stay as they are, the output stays closed, and no
    timer and no heartbeat is pending. *)
Theorem ended_stream_is_inert cfg now req inputs1 inputs2 s :
  stream_of (serve cfg inputs1 (handleMessages cfg now req)) = Some s →
  Stream.suspended s = false →
  ∃ s', stream_of (serve cfg (inputs1 ++ inputs2)%list (handleMessages cfg now req))
        = Some s'
        ∧ Stream.frames s' = Stream.frames s
        ∧ Stream.aborted s' = Stream.aborted s
        ∧ Stream.closed s' = true
        ∧ Stream.timeoutId s' = None
        ∧ Stream.inactivityTimeoutId s' = None
        ∧ Stream.heartbeat s' = None
        ∧ Stream.suspended s' = false.
Proof.
  intros H Hs. rewrite serve_app.
  destruct (stream_reachable cfg now req inputs1 s H) as [W _].
  destruct (stream_of_Streaming _ _ H) as (q & r & ->).
  rewrite serve_Streaming. exists (Stream.run cfg inputs2 s).
  split; [reflexivity|]. now apply StreamMore.run_over.
Qed.

Lemma ended_stream_is_inert_witness :
  ∃ s', stream_of
          (serve default_timeouts
             ([(1001, EngineDone)]
                ++ [(1002, TimerDue HeartbeatTimer); (4000000, TimerDue TotalTimer);
                    (4000001, EngineThrow (Js.Error "Error" "late"))])%list
             (handleMessages default_timeouts 1000 (demo_request None None)))
        = Some s'
        ∧ Stream.frames s'
          = [MessageStart "msg_1000" (Some "sonnet"); ContentBlockStart 0;
             ContentBlockStop 0; MessageDelta "end_turn"; MessageStop]
        ∧ Stream.aborted s' = None.
Proof.
  destruct (ended_stream_is_inert default_timeouts 1000 (demo_request None None)
              [(1001, EngineDone)]
              [(1002, TimerDue HeartbeatTimer); (4000000, TimerDue TotalTimer);
               (4000001, EngineThrow (Js.Error "Error" "late"))]
              (Stream.run default_timeouts [(1001, EngineDone)]
                 (StreamStates.started default_timeouts 1000 (Some "sonnet"))))
    as (s' & E & F & A & _).
  - vm_compute. reflexivity.
  - reflexivity.
  - exists s'. split; [exact E|]. split; [rewrite F|rewrite A]; reflexivity.
Defined.

(** X20.  The timeouts spare a stream that keeps within them.  For a
    total and an inactivity timeout that [setTimeout] takes as they are,
    from 1 to 2147483647 ms: when every input comes before the total
    timeout has elapsed since the request, and less than the inactivity
    timeout after the engine message before it (after the request, at
    first), the abort signal is never triggered. *)
Theorem timeouts_spare_a_live_stream cfg now req inputs s :
  in_timer_range (streamTimeout cfg) →
  in_timer_range (inactivityTimeout cfg) →
  within_windows cfg (now + streamTimeout cfg) now inputs →
  stream_of (serve cfg inputs (handleMessages cfg now req)) = Some s →
  Stream.aborted s = None.
Proof.
  intros R1 R2 H Hs.
  destruct (stream_of_serve cfg now req inputs s Hs) as (model & ->).
  apply (StreamMore.run_within cfg (now + streamTimeout cfg) now); try assumption.
  - apply StreamFacts.wf_started.
  - rewrite StreamFacts.started_eq. unfold timers_set. cbn.
    rewrite !timer_delay_in_range by assumption. auto.
Qed.

Lemma timeouts_spare_a_live_stream_witness :
  Stream.aborted
    (Stream.run default_timeouts
       [(800000, EngineYield (Assistant None [mkBlock "text" (Some "a")]));
        (800001, TimerDue InactivityTimer);
        (1600000, TimerDue TotalTimer);
        (1650000, EngineDone)]
       (StreamStates.started default_timeouts 1000 (Some "sonnet")))
  = None.
Proof.
  apply (timeouts_spare_a_live_stream default_timeouts 1000
           (demo_request None None)
           [(800000, EngineYield (Assistant None [mkBlock "text" (Some "a")]));
            (800001, TimerDue InactivityTimer);
            (1600000, TimerDue TotalTimer);
            (1650000, EngineDone)]).
  - unfold in_timer_range. cbn. lia.
  - unfold in_timer_range. cbn. lia.
  - vm_compute. repeat split.
  - vm_compute. reflexivity.
Defined.

(** X21.  The stream of an engine that runs undisturbed, with no
    disconnect and no timer callback: the two opening frames, then the
    frames of each engine message in order (those of a stream event;
    those of the text blocks of an assistant turn as long as no stream
    event has come before it; none otherwise), then the three closing
    frames when the engine ends, or the one error frame when it
    fails. *)
Theorem engine_only_stream cfg now req body ms t e :
  json req = Json body → body_stream body ≠ Some false →
  frames_of (serve cfg (yields ms ++ [(t, EngineDone)])%list
               (handleMessages cfg now req))
  = (StreamStates.preamble now (body_model body)
       ++ translated false (map snd ms) ++ StreamStates.closing_frames)%list
  ∧ frames_of (serve cfg (yields ms ++ [(t, EngineThrow e)])%list
                 (handleMessages cfg now req))
    = (StreamStates.preamble now (body_model body)
         ++ translated false (map snd ms) ++ [StreamStates.error_frame e])%list.
Proof.
  intros E Hs.
  rewrite (handleMessages_streaming cfg now req body E Hs), !serve_Streaming.
  cbn [frames_of]. rewrite !StreamFacts.run_app, !StreamFacts.run_cons.
  destruct (StreamMore.run_yields cfg ms (StreamStates.started cfg now (body_model body)))
    as (R1 & R2 & R3 & R4 & _);
    try (rewrite StreamFacts.started_eq; reflexivity).
  replace (Stream.frames (StreamStates.started cfg now (body_model body)))
    with (StreamStates.preamble now (body_model body)) in R4
    by (now rewrite StreamFacts.started_eq).
  replace (Stream.hasStreamEvents (StreamStates.started cfg now (body_model body)))
    with false in R4 by (now rewrite StreamFacts.started_eq).
  split.
  - cbn [Stream.run fold_left]. unfold Stream.step. rewrite R1.
    unfold Stream.resume, Stream.ret.
    rewrite StreamFacts.finish_open by assumption.
    cbn [Stream.frames StreamStates.ended]. rewrite R4.
    now rewrite <- app_assoc.
  - cbn [Stream.run fold_left]. unfold Stream.step. rewrite R1.
    unfold Stream.resume, Stream.throw.
    rewrite StreamFacts.fail_open by assumption.
    cbn [Stream.frames StreamStates.ended]. rewrite R4.
    now rewrite <- app_assoc.
Qed.

Lemma engine_only_stream_witness :
  frames_of
    (serve default_timeouts
       (yields [(1001, StreamEvent (EvContentBlockStop 0));
                (1002, Assistant None [mkBlock "text" (Some "again")])]
          ++ [(1003, EngineDone)])%list
       (handleMessages default_timeouts 1000 (demo_request None None)))
  = [MessageStart "msg_1000" (Some "sonnet"); ContentBlockStart 0;
     ContentBlockStop 0;
     ContentBlockStop 0; MessageDelta "end_turn"; MessageStop].
Proof.
  refine (proj1 (engine_only_stream default_timeouts 1000 (demo_request None None)
                   (mkBody (Some "sonnet") None
                      (Some [mkMessage "user" (CString "hi")]))
                   [(1001, StreamEvent (EvContentBlockStop 0));
                    (1002, Assistant None [mkBlock "text" (Some "again")])]
                   1003 (Js.NotError "") eq_refl _)).
  discriminate.
Defined.

(** X22.  The streaming loop keeps the first session identifier: after
    any engine messages, [currentSessionId] is the first identifier an
    assistant turn reported, and undefined when none did. *)
Theorem stream_keeps_first_session cfg now req ms s :
  stream_of (serve cfg (yields ms) (handleMessages cfg now req)) = Some s →
  Stream.currentSessionId s = head (reported_sessions (yields ms)).
Proof.
  intros H. destruct (stream_of_serve cfg now req (yields ms) s H) as (model & ->).
  destruct (StreamMore.run_yields cfg ms (StreamStates.started cfg now model))
    as (_ & _ & _ & _ & R);
    try (rewrite StreamFacts.started_eq; reflexivity).
  rewrite R, StreamFacts.started_eq. cbn.
  now destruct (head (reported_sessions (yields ms))).
Qed.

Lemma stream_keeps_first_session_witness :
  Stream.currentSessionId
    (Stream.run default_timeouts
       (yields [(1001, Assistant (Some "") []); (1002, Assistant (Some "first") []);
                (1003, Assistant (Some "second") [])])
       (StreamStates.started default_timeouts 1000 (Some "sonnet")))
  = Some "first".
Proof.
  apply (stream_keeps_first_session default_timeouts 1000 (demo_request None None)
           [(1001, Assistant (Some "") []); (1002, Assistant (Some "first") []);
            (1003, Assistant (Some "second") [])]).
  vm_compute. reflexivity.
Defined.

Lemma yields_not_terminal (ms : list (Z * SDKMessage)) :
  Forall (λ ti, is_terminal ti.2 = false) (yields ms).
Proof. unfold yields. apply Forall_map. now apply Forall_true. Qed.

(** X23.  Both paths deliver the same text.  For an engine that sends
    whole assistant turns, no stream events, every text block with its
    text, and then ends, the text a client puts together from the
    deltas of the stream is the text of the JSON answer to the same
    request with [stream: false]. *)
Theorem same_text_on_both_paths cfg now now' req req' ms t :
  streaming_request req → buffered_request req' →
  texts_present ms →
  response_text
    (response_of (serve cfg (yields ms ++ [(t, EngineDone)])%list
                    (handleMessages cfg now' req')))
  = Some (streamed_text
            (frames_of (serve cfg (yields ms ++ [(t, EngineDone)])%list
                          (handleMessages cfg now req)))).
Proof.
  intros (b & E & Hs) (b' & E' & Hs') H.
  rewrite (handleMessages_buffered cfg now' req' b' E' Hs'), serve_Buffering.
  cbn [response_of]. rewrite buffered_run_app, buffered_run_cons.
  destruct (buffered_collect (body_model b') (yields ms) (Buffered.start cfg now')
              (yields_not_terminal ms) eq_refl) as (Hr & Hc & _).
  rewrite (buffered_run_answered (body_model b') []
             (Buffered.step (body_model b') t EngineDone
                (Buffered.run (body_model b') (yields ms) (Buffered.start cfg now')))
             (default (outerCatch (Js.NotError ""))
                (Buffered.response
                   (Buffered.respond (body_model b') t
                      (Buffered.run (body_model b') (yields ms)
                         (Buffered.start cfg now'))))))
    by (unfold Buffered.step, Buffered.answered; now rewrite Hr).
  cbn [Buffered.respond Buffered.response default response_text body].
  rewrite Hc. cbn [Buffered.start Buffered.fullContent]. rewrite string_app_nil_l.
  rewrite (handleMessages_streaming cfg now req b E Hs), serve_Streaming.
  cbn [frames_of]. rewrite StreamFacts.run_app, StreamFacts.run_cons.
  destruct (StreamMore.run_yields cfg ms (StreamStates.started cfg now (body_model b)))
    as (R1 & R2 & R3 & R4 & _);
    try (rewrite StreamFacts.started_eq; reflexivity).
  replace (Stream.frames (StreamStates.started cfg now (body_model b)))
    with (StreamStates.preamble now (body_model b)) in R4
    by (now rewrite StreamFacts.started_eq).
  replace (Stream.hasStreamEvents (StreamStates.started cfg now (body_model b)))
    with false in R4 by (now rewrite StreamFacts.started_eq).
  cbn [Stream.run fold_left]. unfold Stream.step. rewrite R1.
  unfold Stream.resume, Stream.ret.
  rewrite StreamFacts.finish_open by assumption.
  cbn [Stream.frames StreamStates.ended]. rewrite R4.
  rewrite !StreamMore.streamed_text_app, (StreamMore.streamed_translated ms H).
  change (streamed_text (StreamStates.preamble now (body_model b))) with "".
  change (streamed_text StreamStates.closing_frames) with "".
  now rewrite string_app_nil_l, string_app_nil_r.
Qed.

Lemma same_text_on_both_paths_witness :
  response_text
    (response_of
       (serve default_timeouts
          (yields [(1001, Assistant (Some "abc")
                            [mkBlock "text" (Some "Hel"); mkBlock "tool_use" None;
                             mkBlock "text" (Some "lo")])]
             ++ [(1002, EngineDone)])%list
          (handleMessages default_timeouts 1000 (demo_request (Some false) None))))
  = Some (streamed_text
            (frames_of
               (serve default_timeouts
                  (yields [(1001, Assistant (Some "abc")
                                    [mkBlock "text" (Some "Hel");
                                     mkBlock "tool_use" None;
                                     mkBlock "text" (Some "lo")])]
                     ++ [(1002, EngineDone)])%list
                  (handleMessages default_timeouts 1000 (demo_request None None))))).
Proof.
  apply (same_text_on_both_paths default_timeouts 1000 1000
           (demo_request None None) (demo_request (Some false) None)).
  - eexists. split; [reflexivity|discriminate].
  - eexists. split; reflexivity.
  - repeat constructor; cbn; try discriminate; intros [].
Defined.

(** X24.  After the client has disconnected, the next thing the engine
    does, a message, its end or a failure, ends [start]: no frame is
    written, no timer and no heartbeat stay pending, and the abort
    signal is left as it is. *)
Theorem disconnected_stream_ends_quietly cfg now req inputs s t i :
  stream_of (serve cfg inputs (handleMessages cfg now req)) = Some s →
  Stream.clientDisconnected s = true → from_engine i = true →
  Stream.suspended (Stream.step cfg t i s) = false
  ∧ Stream.frames (Stream.step cfg t i s) = Stream.frames s
  ∧ Stream.timeoutId (Stream.step cfg t i s) = None
  ∧ Stream.inactivityTimeoutId (Stream.step cfg t i s) = None
  ∧ Stream.heartbeat (Stream.step cfg t i s) = None
  ∧ Stream.aborted (Stream.step cfg t i s) = Stream.aborted s.
Proof.
  intros H Hcd Hi.
  destruct (stream_reachable cfg now req inputs s H) as [W _].
  rewrite (StreamFacts.step_disconnected cfg t i s W Hcd Hi). cbn.
  now repeat split.
Qed.

Lemma disconnected_stream_ends_quietly_witness :
  Stream.suspended
    (Stream.step default_timeouts 1002
       (EngineYield (Assistant None [mkBlock "text" (Some "unread")]))
       (Stream.run default_timeouts [(1001, ClientCancel)]
          (StreamStates.started default_timeouts 1000 (Some "sonnet")))) = false
  ∧ Stream.frames
      (Stream.step default_timeouts 1002
         (EngineYield (Assistant None [mkBlock "text" (Some "unread")]))
         (Stream.run default_timeouts [(1001, ClientCancel)]
            (StreamStates.started default_timeouts 1000 (Some "sonnet"))))
    = StreamStates.preamble 1000 (Some "sonnet").
Proof.
  destruct (disconnected_stream_ends_quietly default_timeouts 1000
              (demo_request None None) [(1001, ClientCancel)]
              (Stream.run default_timeouts [(1001, ClientCancel)]
                 (StreamStates.started default_timeouts 1000 (Some "sonnet")))
              1002 (EngineYield (Assistant None [mkBlock "text" (Some "unread")])))
    as (S & F & _).
  - vm_compute. reflexivity.
  - reflexivity.
  - reflexivity.
  - split; [exact S|exact F].
Defined.

(** ** The two classifiers *)

(** X25.  The outer catch block and the classifier of the streaming
    catch block give a failure the same type and message exactly when
    its message tells of exit code 1, or when it is neither an SDK abort
    nor a connection reset. *)
Theorem classifiers_agree_iff (e : Js.thrown) :
  body (outerCatch e)
  = ErrorJson (classifyStreamError e).1 (classifyStreamError e).2
  ↔ isExitCode1 e = true ∨ (isSdkAbort e = false ∧ isConnectionReset e = false).
Proof.
  unfold outerCatch, classifyStreamError. cbn [body].
  destruct (isExitCode1 e) eqn:E1; cbn.
  - split; [now left|reflexivity].
  - destruct (isSdkAbort e) eqn:E2; cbn.
    + split.
      * intros [= H]. exfalso. unfold isSdkAbort in E2. rewrite H in E2.
        vm_compute in E2. discriminate.
      * intros [|[]]; discriminate.
    + destruct (isConnectionReset e) eqn:E3; cbn.
      * split; [discriminate|intros [|[]]; discriminate].
      * split; [now right|reflexivity].
Qed.
